(** * libbeat/paths: the path resolver of jmxproxybeat

    A shallow embedding of [vendor/github.com/elastic/beats/libbeat/paths/paths.go]
    together with the parts of Go's [path/filepath] and [os] packages (Unix
    flavour) that the resolver calls, and the properties of [InitPaths] and
    [Resolve] that the specification states. *)

From Stdlib Require Import String Ascii ZArith List Lia Bool Arith.
From stdpp Require Import base strings gmap.
From Equations Require Import Equations.
Import ListNotations.

Open Scope string_scope.
Open Scope list_scope.

(** ** Go strings

    A Go [string] is a sequence of bytes; it is embedded as [string], whose
    characters are the bytes. *)

Definition len (s : string) : nat := String.length s.

(** [s[i]].  Go panics when [i] is out of range; every use below is guarded
    by the same bounds test as in the Go text, so the default is never read. *)
Definition byte_at (s : string) (i : nat) : ascii :=
  match String.get i s with
  | Some c => c
  | None => Ascii.zero
  end.

(** [s[a:b]] *)
Definition slice (s : string) (a b : nat) : string := substring a (b - a) s.

(** ** Results of Go functions *)

(** A value of Go's [error] interface.  [syscall.Errno] values are wrapped by
    [os] in a [*PathError]; [fmt.Errorf] builds an [*errors.errorString]. *)
Inductive Errno := ENOENT | ENOTDIR | EEXIST | EACCES.

Inductive error :=
| PathError (Op Path : string) (Err : Errno)
| errorString (s : string).

Definition Errno_Error (e : Errno) : string :=
  match e with
  | ENOENT => "no such file or directory"
  | ENOTDIR => "not a directory"
  | EEXIST => "file exists"
  | EACCES => "permission denied"
  end.

(** The [Error()] method. *)
Definition Error (e : error) : string :=
  match e with
  | PathError op path err => op +:+ " " +:+ path +:+ ": " +:+ Errno_Error err
  | errorString s => s
  end.

(** A Go call either returns or panics. *)
Inductive outcome (A : Type) :=
| Ret (a : A)
| Panic (msg : string).
Arguments Ret {A} a.
Arguments Panic {A} msg.

(** ** The process environment

    What the resolver reads from the process: [os.Args] (the Go runtime puts
    the program name first), the answer of [os.Getwd], and the four
    command-line flags [path.home], [path.config], [path.data], [path.logs].
    The flag variables are pointers to strings; [None] is the nil pointer.
    [Executable] is the path name of the program file that the process
    runs, as [execve] was given it after the search along [PATH]; the
    program name in [os.Args] is chosen by the caller of [execve] and need
    not be that path.  The package never asks for [Executable].
    [Umask] is the file mode creation mask the kernel applies for the
    process; [Euid], [Egid] and [Groups] are the effective user, the
    effective group and the supplementary groups the kernel checks
    permissions against. *)
Record Env := {
  Args0 : string;
  ArgsRest : list string;
  Executable : string;
  Getwd : string + error;
  Umask : Z;
  Euid : Z;
  Egid : Z;
  Groups : list Z;
  homePath : option string;
  configPath : option string;
  dataPath : option string;
  logsPath : option string
}.

Definition os_Args (env : Env) : list string := Args0 env :: ArgsRest env.

(** ** path/filepath on Unix *)
Module filepath.

Definition Separator : ascii := "/"%char.

(** [os.IsPathSeparator] *)
Definition IsPathSeparator (c : ascii) : bool := Ascii.eqb c Separator.

(** [IsAbs]: [strings.HasPrefix(path, "/")] *)
Definition IsAbs (path : string) : bool :=
  match path with
  | String c _ => Ascii.eqb c "/"%char
  | EmptyString => false
  end.

(** The [lazybuf] of [Clean] is represented by its logical contents
    [buf[0:w]] as a list of bytes, so [w] is the length of the list and
    [append] adds at the end.  The inner loop of the [..] case
    decrements [w] while [w > dotdot] and the byte at [w] is not a
    separator; [backtrack out dotdot w] is that loop, reading the bytes of
    the contents [out] as they were on entry. *)
Fixpoint backtrack (out : list ascii) (dotdot w : nat) : nat :=
  match w with
  | 0 => 0
  | S w' =>
      if (dotdot <? w)%nat && negb (IsPathSeparator (nth w out Ascii.zero))
      then backtrack out dotdot w'
      else w
  end.

(** The four arms of the [switch] in the loop of [Clean]. *)
Inductive element := EmptyElem | DotElem | DotDotElem | RealElem.

Definition element_at (path : string) (r : nat) : element :=
  let n := len path in
  if IsPathSeparator (byte_at path r) then EmptyElem
  else if Ascii.eqb (byte_at path r) "."
          && ((r + 1 =? n)%nat || IsPathSeparator (byte_at path (r + 1)))
  then DotElem
  else if Ascii.eqb (byte_at path r) "."
          && Ascii.eqb (byte_at path (r + 1)) "."
          && ((r + 2 =? n)%nat || IsPathSeparator (byte_at path (r + 2)))
  then DotDotElem
  else RealElem.

(** [for ; r < n && !os.IsPathSeparator(path[r]); r++ { out.append(path[r]) }] *)
Equations? copy_element (path : string) (r : nat) (out : list ascii)
  : nat * list ascii by wf (len path - r) lt :=
  copy_element path r out with lt_dec r (len path) => {
    | left Hr =>
        if IsPathSeparator (byte_at path r) then (r, out)
        else copy_element path (S r) (out ++ [byte_at path r]);
    | right _ => (r, out) }.
Proof. lia. Qed.


(** [copy_element] only moves forward, and past [r] when the byte at [r]
    is not a separator. *)
Lemma copy_element_ge path r out : r <= (copy_element path r out).1.
Proof.
  funelim (copy_element path r out); simpl; try lia.
  destruct (IsPathSeparator (byte_at path r)); simpl; lia.
Qed.

Lemma copy_element_gt path r out :
  r < len path -> IsPathSeparator (byte_at path r) = false ->
  r < (copy_element path r out).1.
Proof.
  intros Hr Hs. rewrite copy_element_equation_1.
  destruct (lt_dec r (len path)); [|lia]. simpl. rewrite Hs.
  pose proof (copy_element_ge path (S r) (out ++ [byte_at path r])). lia.
Qed.

Lemma element_at_Real path r :
  element_at path r = RealElem -> IsPathSeparator (byte_at path r) = false.
Proof.
  unfold element_at. destruct (IsPathSeparator (byte_at path r)); [discriminate|done].
Qed.

(** The loop [for r < n { switch { ... } }] of [Clean]; the result is the
    contents of the buffer when the loop ends. *)
Equations? clean_loop (path : string) (rooted : bool) (r dotdot : nat)
  (out : list ascii) : list ascii by wf (len path - r) lt :=
  clean_loop path rooted r dotdot out with lt_dec r (len path) => {
    | right _ => out
    | left Hr with Logic.inspect (element_at path r) => {
      | exist _ EmptyElem _ =>
          (* empty path element *)
          clean_loop path rooted (r + 1) dotdot out
      | exist _ DotElem _ =>
          (* . element *)
          clean_loop path rooted (r + 1) dotdot out
      | exist _ DotDotElem _ =>
          (* .. element: remove to last separator *)
          if (dotdot <? length out)%nat then
            (* can backtrack *)
            let w := backtrack out dotdot (length out - 1) in
            clean_loop path rooted (r + 2) dotdot (take w out)
          else if negb rooted then
            (* cannot backtrack, but not rooted, so append .. element *)
            let out1 := if (0 <? length out)%nat then out ++ [Separator] else out in
            let out2 := out1 ++ ["."%char; "."%char] in
            clean_loop path rooted (r + 2) (length out2) out2
          else
            clean_loop path rooted (r + 2) dotdot out
      | exist _ RealElem Hk =>
          (* real path element: add slash if needed, copy element *)
          let out1 :=
            if rooted && negb (length out =? 1)%nat
               || negb rooted && negb (length out =? 0)%nat
            then out ++ [Separator] else out in
          clean_loop path rooted (fst (copy_element path r out1)) dotdot
            (snd (copy_element path r out1)) } }.
Proof.
  all: try lia.
  match goal with |- context [copy_element path r ?o] =>
    pose proof (copy_element_gt path r o Hr (element_at_Real _ _ Hk)) end.
  lia.
Qed.

(** [Clean] (the volume name is empty on Unix and [FromSlash] is the
    identity). *)
Definition Clean (path : string) : string :=
  if String.eqb path "" then path +:+ "."
  else
    let rooted := IsPathSeparator (byte_at path 0) in
    let out := clean_loop path rooted
                 (if rooted then 1 else 0) (if rooted then 1 else 0)
                 (if rooted then [Separator] else []) in
    (* Turn empty string into "." *)
    let out := if (length out =? 0)%nat then out ++ ["."%char] else out in
    string_of_list_ascii out.

(** [strings.Join(a, sep)] *)
Fixpoint strings_Join (a : list string) (sep : string) : string :=
  match a with
  | [] => ""
  | [s] => s
  | s :: rest => s +:+ sep +:+ strings_Join rest sep
  end.

(** [Join]: the first non-empty element onwards, joined and cleaned. *)
Fixpoint Join (elem : list string) : string :=
  match elem with
  | [] => ""
  | e :: rest =>
      if negb (String.eqb e "") then Clean (strings_Join elem (String Separator ""))
      else Join rest
  end.

(** The loop of [Dir], [for i >= 0 && !os.IsPathSeparator(path[i]) { i-- }],
    on [k = i + 1] so that the counter stays a natural number. *)
Fixpoint dir_end (path : string) (k : nat) : nat :=
  match k with
  | 0 => 0
  | S i => if negb (IsPathSeparator (byte_at path i)) then dir_end path i else k
  end.

(** [Dir] *)
Definition Dir (path : string) : string :=
  let k := dir_end path (len path) in
  Clean (slice path 0 k).

(** [Abs] (Unix): [Clean] for an absolute path, else joined to [os.Getwd()]. *)
Definition Abs (env : Env) (path : string) : string * option error :=
  if IsAbs path then (Clean path, None)
  else
    match Getwd env with
    | inr err => ("", Some err)
    | inl wd => (Join [wd; path], None)
    end.

End filepath.

(** ** os: the directory tree and [MkdirAll]

    The file system is a finite map from locations to nodes.  A location is
    the list of names that leads from the root directory to the node, the
    empty list being the root; a directory carries its permission bits, its
    owner and its group.  There are no symbolic links.

    A path name is looked up the way the kernel walks it: from the root for
    an absolute name and from the working directory otherwise, one component
    at a time through the tree.  Each step needs the current node to be a
    directory that the process may search; [.] stays, [..] goes to the
    parent (the root is its own parent), empty components are skipped.

    The model covers the errors [ENOENT], [ENOTDIR], [EEXIST] and [EACCES].
    It leaves out symbolic links, access control lists and capabilities
    other than those of user 0, read-only and full file systems, and the
    limits on the length of a name; a name holds no NUL byte.  The working
    directory is known by the answer of [os.Getwd] alone: a relative name
    is walked from the location that this answer names, and cannot be
    walked when [os.Getwd] fails. *)

Inductive Node :=
| Directory (mode uid gid : Z)
| RegularFile.

Abbreviation FS := (gmap (list string) Node).

Module os.

(** [FileInfo.IsDir] *)
Definition IsDir (fi : Node) : bool :=
  match fi with
  | Directory _ _ _ => true
  | RegularFile => false
  end.

(** The pieces of a name between its separators. *)
Fixpoint split_slash (s : string) : list string :=
  match s with
  | EmptyString => [""]
  | String c s' =>
      if filepath.IsPathSeparator c then "" :: split_slash s'
      else
        match split_slash s' with
        | h :: t => String c h :: t
        | [] => [String c ""]
        end
  end.

(** The components the kernel steps through: the non-empty pieces. *)
Definition components (name : string) : list string :=
  List.filter (fun c => negb (String.eqb c "")) (split_slash name).

Definition trailing_slash (name : string) : bool :=
  (0 <? len name)%nat && filepath.IsPathSeparator (byte_at name (len name - 1)).

(** The permission check of the kernel on a directory: the superuser
    passes; otherwise the owner class applies to the owner, the group class
    to a member of the group, the other class to everybody else.  [bit] is 0
    for search and 1 for write. *)
Definition in_group (env : Env) (gid : Z) : bool :=
  (Egid env =? gid)%Z || existsb (Z.eqb gid) (Groups env).

Definition permitted (env : Env) (bit : Z) (mode uid gid : Z) : bool :=
  (Euid env =? 0)%Z
  || Z.testbit mode
       ((if (Euid env =? uid)%Z then 6 else if in_group env gid then 3 else 0) + bit).

Definition may_search (env : Env) (mode uid gid : Z) : bool := permitted env 0 mode uid gid.
Definition may_write (env : Env) (mode uid gid : Z) : bool := permitted env 1 mode uid gid.

(** The location that a string of components names, taken by the letter
    (used for the working directory, which the kernel reports in this form). *)
Fixpoint lexical (cur : list string) (comps : list string) : list string :=
  match comps with
  | [] => cur
  | c :: rest =>
      if String.eqb c "." then lexical cur rest
      else if String.eqb c ".." then lexical (removelast cur) rest
      else lexical (cur ++ [c]) rest
  end.

(** Where the walk of [name] starts; a relative name cannot be looked up
    when the working directory is gone. *)
Definition start (env : Env) (name : string) : option (list string) :=
  if filepath.IsAbs name then Some []
  else
    match Getwd env with
    | inl wd => Some (lexical [] (components wd))
    | inr _ => None
    end.

(** The walk: the location reached from [cur] through [comps].  The node at
    the location reached need not exist; every node stepped through does. *)
Fixpoint walk (env : Env) (fs : FS) (cur : list string) (comps : list string)
  : list string + Errno :=
  match comps with
  | [] => inl cur
  | c :: rest =>
      match fs !! cur with
      | None => inr ENOENT
      | Some RegularFile => inr ENOTDIR
      | Some (Directory mode uid gid) =>
          if may_search env mode uid gid then
            if String.eqb c "." then walk env fs cur rest
            else if String.eqb c ".." then walk env fs (removelast cur) rest
            else walk env fs (cur ++ [c]) rest
          else inr EACCES
      end
  end.

(** [stat(2)]; [op] is the name of the call in the error. *)
Definition stat (env : Env) (fs : FS) (op name : string) : Node + error :=
  if String.eqb name "" then inr (PathError op name ENOENT)
  else
    match start env name with
    | None => inr (PathError op name ENOENT)
    | Some cur =>
        match walk env fs cur (components name) with
        | inr e => inr (PathError op name e)
        | inl loc =>
            match fs !! loc with
            | None => inr (PathError op name ENOENT)
            | Some fi =>
                if trailing_slash name && negb (IsDir fi)
                then inr (PathError op name ENOTDIR)
                else inl fi
            end
        end
    end.

(** [Stat] *)
Definition Stat (env : Env) (fs : FS) (name : string) : Node + error :=
  stat env fs "stat" name.

(** [Lstat]; there are no symbolic links, so it looks up like [Stat]. *)
Definition Lstat (env : Env) (fs : FS) (name : string) : Node + error :=
  stat env fs "lstat" name.

(** [syscallMode]: the mode that Go hands to [mkdir(2)] for a [FileMode],
    the nine permission bits and the sticky bit for [ModeSticky] (bit 20 of
    a [FileMode]).  [ModeSetuid] and [ModeSetgid] are translated as well,
    but [mkdir(2)] drops them. *)
Definition syscallMode (perm : Z) : Z :=
  Z.lor (Z.land perm 511) (if Z.testbit perm 20 then 512 else 0).

(** The mode that [mkdir(2)] gives: the requested bits without the
    permission bits of the umask. *)
Definition new_mode (env : Env) (perm : Z) : Z :=
  Z.land (syscallMode perm) (Z.lnot (Z.land (Umask env) 511)).

(** The directory that [mkdir(2)] makes in a parent of mode [pmode] and
    group [pgid].  It is owned by the process; below a set-group-ID
    directory (bit 10 of the mode) it takes the group of the parent and is
    set-group-ID itself. *)
Definition new_directory (env : Env) (perm : Z) (pmode pgid : Z) : Node :=
  if Z.testbit pmode 10
  then Directory (Z.lor (new_mode env perm) 1024) (Euid env) pgid
  else Directory (new_mode env perm) (Euid env) (Egid env).

(** [Mkdir]: the [mkdir(2)] call, its [Errno] wrapped in a [*PathError].
    A name without components is the root, which is there.  Otherwise the
    kernel walks to the parent of the last component, which must be a
    directory the process may search; a last component that is [.] or [..]
    or names an existing node gives [EEXIST]; creating needs write
    permission on the parent. *)
Definition Mkdir (env : Env) (name : string) (perm : Z) (fs : FS)
  : FS * option error :=
  let fail e := (fs, Some (PathError "mkdir" name e)) in
  if String.eqb name "" then fail ENOENT
  else
    match start env name, last (components name) with
    | None, _ => fail ENOENT
    | Some _, None => fail EEXIST
    | Some cur, Some c =>
        match walk env fs cur (removelast (components name)) with
        | inr e => fail e
        | inl parent =>
            match fs !! parent with
            | None => fail ENOENT
            | Some RegularFile => fail ENOTDIR
            | Some (Directory mode uid gid) =>
                if negb (may_search env mode uid gid) then fail EACCES
                else if String.eqb c "." || String.eqb c ".." then fail EEXIST
                else
                  match fs !! (parent ++ [c]) with
                  | Some _ => fail EEXIST
                  | None =>
                      if may_write env mode uid gid
                      then (<[parent ++ [c] := new_directory env perm mode gid]> fs,
                            None)
                      else fail EACCES
                  end
            end
        end
    end.

(** [for i > 0 && IsPathSeparator(path[i-1]) { i-- }] *)
Fixpoint skip_trailing (path : string) (i : nat) : nat :=
  match i with
  | 0 => 0
  | S i' => if filepath.IsPathSeparator (byte_at path i') then skip_trailing path i' else i
  end.

(** [for j > 0 && !IsPathSeparator(path[j-1]) { j-- }] *)
Fixpoint scan_element (path : string) (j : nat) : nat :=
  match j with
  | 0 => 0
  | S j' => if negb (filepath.IsPathSeparator (byte_at path j')) then scan_element path j' else j
  end.

(** The index [j] at which the last element of [path] starts. *)
Definition last_element (path : string) : nat :=
  scan_element path (skip_trailing path (len path)).

(** The end of [MkdirAll], once the parent exists: [Mkdir], and on failure
    the double check that the directory is not there already. *)
Definition mkdir_checked (env : Env) (path : string) (perm : Z) (fs : FS)
  : FS * option error :=
  match Mkdir env path perm fs with
  | (fs', None) => (fs', None)
  | (fs', Some err) =>
      match Lstat env fs' path with
      | inl dir => if IsDir dir then (fs', None) else (fs', Some err)
      | inr _ => (fs', Some err)
      end
  end.

Lemma skip_trailing_le path i : skip_trailing path i <= i.
Proof.
  induction i as [|i IH]; simpl; [lia|].
  destruct (filepath.IsPathSeparator _); lia.
Qed.

Lemma scan_element_le path j : scan_element path j <= j.
Proof.
  induction j as [|j IH]; simpl; [lia|].
  destruct (negb _); lia.
Qed.

Lemma last_element_le path : last_element path <= len path.
Proof.
  unfold last_element.
  pose proof (scan_element_le path (skip_trailing path (len path))).
  pose proof (skip_trailing_le path (len path)). lia.
Qed.

Lemma substring_length_le s n m : String.length (substring n m s) <= m.
Proof.
  revert n m. induction s as [|c s IH]; intros [|n] [|m]; simpl; try lia.
  - specialize (IH 0 m). lia.
  - apply (IH n 0).
  - apply (IH n (S m)).
Qed.

(** [MkdirAll] *)
Equations? MkdirAll (env : Env) (path : string) (perm : Z) (fs : FS)
  : FS * option error by wf (len path) lt :=
  MkdirAll env path perm fs with Stat env fs path => {
    (* Fast path: if we can tell whether path is a directory or file, stop
       with success or error. *)
    | inl dir =>
        if IsDir dir then (fs, None)
        else (fs, Some (PathError "mkdir" path ENOTDIR))
    (* Slow path: make sure parent exists and then call Mkdir for path. *)
    | inr _ with lt_dec 1 (last_element path) => {
      | left Hj with MkdirAll env (slice path 0 (last_element path - 1)) perm fs => {
        | (fs1, Some err) => (fs1, Some err)
        | (fs1, None) => mkdir_checked env path perm fs1 }
      | right _ => mkdir_checked env path perm fs } }.
Proof.
  unfold slice, len.
  pose proof (substring_length_le path 0 (last_element path - 1 - 0)).
  pose proof (last_element_le path). unfold len in *. lia.
Qed.

End os.

(** ** Package paths *)

Record Path := {
  Home : string;
  Config : string;
  Data : string;
  Logs : string
}.

(** The assignments [paths.Home = v] and so on. *)
Definition set_Home (v : string) (p : Path) : Path :=
  {| Home := v; Config := Config p; Data := Data p; Logs := Logs p |}.
Definition set_Config (v : string) (p : Path) : Path :=
  {| Home := Home p; Config := v; Data := Data p; Logs := Logs p |}.
Definition set_Data (v : string) (p : Path) : Path :=
  {| Home := Home p; Config := Config p; Data := v; Logs := Logs p |}.
Definition set_Logs (v : string) (p : Path) : Path :=
  {| Home := Home p; Config := Config p; Data := Data p; Logs := v |}.

(** [FileType] is a string type; any string can be converted to it. *)
Definition FileType := string.

Module FileTypes.
Definition Home : FileType := "home".
Definition Config : FileType := "config".
Definition Data : FileType := "data".
Definition Logs : FileType := "logs".
End FileTypes.

(** [New] creates a new Paths object with all values set to empty values. *)
Definition New : Path := {| Home := ""; Config := ""; Data := ""; Logs := "" |}.

(** One statement of the form "if the flag pointer is not nil and the
    string it points to is not empty, assign that string to the field": the
    value of the field after the statement, [cur] being its value before. *)
Definition overwrite (flag : option string) (cur : string) : string :=
  match flag with
  | Some v => if (0 <? len v)%nat then v else cur
  | None => cur
  end.

(** [initPaths], first part: the fields are assigned from [cfg], then
    overwritten from the CLI flags.  Each assignment reads from [cfg] the
    field it writes in the receiver, so a [cfg] that points to the receiver
    itself is the case [cfg = paths] of this definition. *)
Definition initPaths_flags (env : Env) (cfg : Path) (paths : Path) : Path :=
  let paths := set_Home (Home cfg) paths in
  let paths := set_Config (Config cfg) paths in
  let paths := set_Data (Data cfg) paths in
  let paths := set_Logs (Logs cfg) paths in
  (* overwrite paths from CLI flags *)
  let paths := set_Home (overwrite (homePath env) (Home paths)) paths in
  let paths := set_Config (overwrite (configPath env) (Config paths)) paths in
  let paths := set_Data (overwrite (dataPath env) (Data paths)) paths in
  let paths := set_Logs (overwrite (logsPath env) (Logs paths)) paths in
  paths.

(** [fmt.Errorf] at its two call sites; [%s] prints the string and [%v]
    prints an error through its [Error] method. *)
Definition Errorf_abs (arg0 : string) (err : error) : error :=
  errorString ("The absolute path to " +:+ arg0 +:+ " could not be obtained. " +:+ Error err).

Definition Errorf_data (data : string) (err : error) : error :=
  errorString ("Failed to create data path " +:+ data +:+ ": " +:+ Error err).

(** [initPaths], second part: the defaults.  The result is the receiver as
    the call leaves it and the returned error. *)
Definition initPaths_defaults (env : Env) (paths : Path) : Path * option error :=
  (* default for the home path is the binary location *)
  let '(paths, err) :=
    if (len (Home paths) =? 0)%nat then
      let '(home, err) := filepath.Abs env (filepath.Dir (Args0 env)) in
      (set_Home home paths, err)
    else (paths, None) in
  match err with
  | Some err => (paths, Some (Errorf_abs (Args0 env) err))
  | None =>
      (* default for config path *)
      let paths :=
        if (len (Config paths) =? 0)%nat then set_Config (Home paths) paths else paths in
      (* default for data path *)
      let paths :=
        if (len (Data paths) =? 0)%nat
        then set_Data (filepath.Join [Home paths; "data"]) paths else paths in
      (* default for logs path *)
      let paths :=
        if (len (Logs paths) =? 0)%nat
        then set_Logs (filepath.Join [Home paths; "logs"]) paths else paths in
      (paths, None)
  end.

(** [initPaths] sets the default paths in the configuration based on CLI
    flags, configuration file and default values. *)
Definition initPaths (env : Env) (cfg : Path) (paths : Path) : Path * option error :=
  initPaths_defaults env (initPaths_flags env cfg paths).

Definition mode_0755 : Z := 7 * 64 + 5 * 8 + 5.

(** [InitPaths]: [initPaths], then make sure the data path exists.  The
    result is the receiver and the file system as the call leaves them, and
    the returned error. *)
Definition InitPaths (env : Env) (cfg : Path) (paths : Path) (fs : FS)
  : Path * FS * option error :=
  let '(paths, err) := initPaths env cfg paths in
  match err with
  | Some err => (paths, fs, Some err)
  | None =>
      (* make sure the data path exists *)
      let '(fs, err) := os.MkdirAll env (Data paths) mode_0755 fs in
      match err with
      | Some err => (paths, fs, Some (Errorf_data (Data paths) err))
      | None => (paths, fs, None)
      end
  end.

(** [Resolve] resolves a path to a location in one of the default folders. *)
Definition Resolve (paths : Path) (fileType : FileType) (path : string) : outcome string :=
  (* absolute paths are not changed *)
  if filepath.IsAbs path then Ret path
  else if String.eqb fileType FileTypes.Home then Ret (filepath.Join [Home paths; path])
  else if String.eqb fileType FileTypes.Config then Ret (filepath.Join [Config paths; path])
  else if String.eqb fileType FileTypes.Data then Ret (filepath.Join [Data paths; path])
  else if String.eqb fileType FileTypes.Logs then Ret (filepath.Join [Logs paths; path])
  else Panic ("Unknown file type: " +:+ fileType).

(** [String] returns a textual representation. *)
Definition Path_String (paths : Path) : string :=
  "Home path: [" +:+ Home paths +:+ "] Config path: [" +:+ Config paths
  +:+ "] Data path: [" +:+ Data paths +:+ "] Logs path: [" +:+ Logs paths +:+ "]".

(** The singleton [Paths] and the top-level functions of the package,
    which operate on it.  [paths.Paths] is the value the package variable is
    initialised with; the functions take the current value of the
    singleton. *)
Module paths.

Definition Paths : Path := New.

Definition InitPaths (env : Env) (cfg : Path) (singleton : Path) (fs : FS)
  : Path * FS * option error :=
  InitPaths env cfg singleton fs.

Definition Resolve (singleton : Path) (fileType : FileType) (path : string)
  : outcome string :=
  Resolve singleton fileType path.

End paths.

(** ** Vocabulary of the specification *)

(** The categories that [Resolve] knows. *)
Definition known_FileType (ft : FileType) : Prop :=
  ft = FileTypes.Home \/ ft = FileTypes.Config \/ ft = FileTypes.Data \/ ft = FileTypes.Logs.

(** What precedence means for one field: [flag] is the override, [base] the
    value of the base configuration, [pre] the field after the overrides are
    applied and [post] the field when [initPaths] returns. *)
Definition takes_precedence (flag : option string) (base pre post : string) : Prop :=
  (forall v, flag = Some v -> v <> "" -> pre = v /\ post = v)
  /\ (flag = None \/ flag = Some "" -> pre = base /\ (base <> "" -> post = base)).

(** [grows env perm fs fs']: every location keeps its node from [fs] to
    [fs'], except locations that were free and now hold a directory that
    the process created with [perm] in the directory above. *)
Definition grows (env : Env) (perm : Z) (fs fs' : FS) : Prop :=
  forall k,
    fs' !! k = fs !! k
    \/ (fs !! k = None
        /\ exists m u g,
             fs' !! removelast k = Some (Directory m u g)
             /\ fs' !! k = Some (os.new_directory env perm m g)).

(** [parents_exist fs]: every node of the tree lies in a directory of the
    tree (the root lies in itself). *)
Definition parents_exist (fs : FS) : Prop :=
  forall k fi, fs !! k = Some fi ->
  exists m u g, fs !! removelast k = Some (Directory m u g).

(** [category_field paths ft d]: [ft] is one of the four categories and [d]
    is the field of [paths] that [Resolve] joins with for it. *)
Definition category_field (paths : Path) (ft : FileType) (d : string) : Prop :=
  (ft = FileTypes.Home /\ d = Home paths)
  \/ (ft = FileTypes.Config /\ d = Config paths)
  \/ (ft = FileTypes.Data /\ d = Data paths)
  \/ (ft = FileTypes.Logs /\ d = Logs paths).

(** A buffer of [Clean] that does not start with a separator. *)
Definition relative_buf (out : list ascii) : Prop :=
  match out with
  | [] => True
  | c :: _ => filepath.IsPathSeparator c = false
  end.

(** Two environments with the same four flag values. *)
Definition same_flags (env1 env2 : Env) : Prop :=
  homePath env1 = homePath env2 /\ configPath env1 = configPath env2
  /\ dataPath env1 = dataPath env2 /\ logsPath env1 = logsPath env2.

(** [has_byte c s]: the byte [c] occurs in [s]. *)
Fixpoint has_byte (c : ascii) (s : string) : bool :=
  match s with
  | EmptyString => false
  | String x s' => Ascii.eqb x c || has_byte c s'
  end.

(** None of the four paths contains a closing bracket. *)
Definition bracket_free (paths : Path) : Prop :=
  has_byte "]" (Home paths) = false /\ has_byte "]" (Config paths) = false
  /\ has_byte "]" (Data paths) = false /\ has_byte "]" (Logs paths) = false.

(** [plain c]: [c] can be the name of a directory entry. *)
Definition plain (c : string) : Prop :=
  c <> "" /\ has_byte "/" c = false /\ c <> "." /\ c <> "..".

(** The absolute path name in clean form with the components [cs]:
    [render ["var"; "lib"]] is ["/var/lib"]. *)
Fixpoint render (cs : list string) : string :=
  match cs with
  | [] => ""
  | c :: rest => String "/" (c +:+ render rest)
  end.

(** The location that the walk of [name] reaches in the tree [fs], if the
    walk gets through. *)
Definition location (env : Env) (fs : FS) (name : string) : option (list string) :=
  if String.eqb name "" then None
  else
    match os.start env name with
    | None => None
    | Some cur =>
        match os.walk env fs cur (os.components name) with
        | inl loc => Some loc
        | inr _ => None
        end
    end.

(** [n] is the end of [path] or the index of a separator in it. *)
Definition boundary (path : string) (n : nat) : Prop :=
  n = len path \/ filepath.IsPathSeparator (byte_at path n) = true.

(** The process may search and write the directories it creates with
    [perm]: it is their owner, so the owner bits of their mode decide. *)
Definition usable (env : Env) (perm : Z) : Prop :=
  os.may_search env (os.new_mode env perm) (Euid env) (Egid env) = true
  /\ os.may_write env (os.new_mode env perm) (Euid env) (Egid env) = true.

(** A directory at [loc] that the process may search, and one in which it
    may also create entries. *)
Definition searchable_dir (env : Env) (fs : FS) (loc : list string) : Prop :=
  exists m u g, fs !! loc = Some (Directory m u g) /\ os.may_search env m u g = true.

Definition writable_dir (env : Env) (fs : FS) (loc : list string) : Prop :=
  exists m u g, fs !! loc = Some (Directory m u g)
    /\ os.may_search env m u g = true /\ os.may_write env m u g = true.

(** Reading a field back after assignments to the receiver. *)
Ltac fields :=
  cbn [Home Config Data Logs set_Home set_Config set_Data set_Logs] in *.

(** ** The model on concrete inputs *)

(** An environment without flag values, as [flag.String] leaves the four
    flags when the command line does not set them, with umask 022, for a
    process of the superuser that was started under the path of its program
    file. *)
Definition no_flags (arg0 : string) (wd : string + error) : Env :=
  {| Args0 := arg0; ArgsRest := []; Executable := arg0; Getwd := wd;
     Umask := 2 * 8 + 2; Euid := 0; Egid := 0; Groups := [];
     homePath := Some ""; configPath := Some ""; dataPath := Some ""; logsPath := Some "" |}.

(** The same for a process of user 1000. *)
Definition no_flags_user (arg0 : string) (wd : string + error) : Env :=
  {| Args0 := arg0; ArgsRest := []; Executable := arg0; Getwd := wd;
     Umask := 2 * 8 + 2; Euid := 1000; Egid := 1000; Groups := [];
     homePath := Some ""; configPath := Some ""; dataPath := Some ""; logsPath := Some "" |}.

(** A tree with the root directory alone, owned by the superuser. *)
Definition root_only : FS := {[ [] := Directory mode_0755 0 0 ]}.

Example Clean_tests :
  map filepath.Clean
    [""; "abc"; "abc/def"; "."; ".."; "../.."; "../../abc"; "/abc"; "/";
     "abc/"; "a/b/c/"; "./"; "../"; "/abc/"; "abc//def//ghi"; "//abc"; "///abc";
     "//abc//"; "abc/./def"; "/./abc/def"; "abc/."; "abc/def/ghi/../jkl";
     "abc/def/../ghi/../jkl"; "abc/def/.."; "abc/def/../.."; "/abc/def/../..";
     "abc/def/../../.."; "/abc/def/../../.."; "abc/def/../../../ghi/jkl/../../../mno";
     "/../abc"; "abc/./../def"; "abc//./../def"; "abc/../../././../def"]
  = ["."; "abc"; "abc/def"; "."; ".."; "../.."; "../../abc"; "/abc"; "/";
     "abc"; "a/b/c"; "."; ".."; "/abc"; "abc/def/ghi"; "/abc"; "/abc";
     "/abc"; "abc/def"; "/abc/def"; "abc"; "abc/def/jkl";
     "abc/jkl"; "abc"; "."; "/";
     ".."; "/"; "../../mno";
     "/abc"; "def"; "def"; "../../def"].
Proof. vm_compute. reflexivity. Qed.

Example Dir_tests :
  map filepath.Dir [""; "."; "/."; "/"; "////"; "/foo"; "x/"; "abc"; "abc/def"; "a/b/.x"; "a/b/c."; "a/b/c.x"; "/usr/bin/jmxproxybeat"; "./jmxproxybeat"]
  = ["."; "."; "/"; "/"; "/"; "/"; "x"; "."; "abc"; "a/b"; "a/b"; "a/b"; "/usr/bin"; "."].
Proof. vm_compute. reflexivity. Qed.

Example Join_tests :
  map filepath.Join [[]; [""]; ["a"]; ["a"; "b"]; ["a"; ""]; [""; "b"]; ["/"; "a"]; ["/"; ""]; ["a/"; "b"]; ["a/"; ""]; [""; ""]; ["/opt/app"; "data"]]
  = [""; ""; "a"; "a/b"; "a"; "b"; "/a"; "/"; "a/b"; "a"; ""; "/opt/app/data"].
Proof. vm_compute. reflexivity. Qed.

Example split_slash_tests :
  map os.components [""; "/"; "/usr//share/"; "a/./../b"; "data"]
  = [[]; []; ["usr"; "share"]; ["a"; "."; ".."; "b"]; ["data"]].
Proof. vm_compute. reflexivity. Qed.

Example InitPaths_installed :
  let r := InitPaths (no_flags "/usr/share/jmxproxybeat/bin/jmxproxybeat" (inl "/")) New New root_only in
  r.1.1 = {| Home := "/usr/share/jmxproxybeat/bin"; Config := "/usr/share/jmxproxybeat/bin";
             Data := "/usr/share/jmxproxybeat/bin/data"; Logs := "/usr/share/jmxproxybeat/bin/logs" |}
  /\ r.2 = None
  /\ map (fun k => r.1.2 !! k)
       [["usr"]; ["usr"; "share"; "jmxproxybeat"; "bin"];
        ["usr"; "share"; "jmxproxybeat"; "bin"; "data"];
        ["usr"; "share"; "jmxproxybeat"; "bin"; "logs"]]
     = [Some (Directory mode_0755 0 0); Some (Directory mode_0755 0 0);
        Some (Directory mode_0755 0 0); None].
Proof. vm_compute. done. Qed.

Example InitPaths_spec_example :
  let env := {| Args0 := "./jmxproxybeat"; ArgsRest := [];
                Executable := "/home/u/jmxproxybeat"; Getwd := inl "/home/u"; Umask := 18;
                Euid := 1000; Egid := 1000; Groups := [];
                homePath := Some ""; configPath := Some "";
                dataPath := Some "/var/lib/app"; logsPath := Some "" |} in
  (InitPaths env {| Home := "/opt/app"; Config := ""; Data := ""; Logs := "" |} New root_only).1.1
  = {| Home := "/opt/app"; Config := "/opt/app"; Data := "/var/lib/app"; Logs := "/opt/app/logs" |}.
Proof. vm_compute. done. Qed.

Example InitPaths_relative_program_name :
  (InitPaths (no_flags "./jmxproxybeat" (inl "/home/u")) New New root_only).1.1
  = {| Home := "/home/u"; Config := "/home/u"; Data := "/home/u/data"; Logs := "/home/u/logs" |}.
Proof. vm_compute. done. Qed.

Example InitPaths_getwd_fails :
  InitPaths (no_flags "./jmxproxybeat" (inr (errorString "getwd: no such file or directory")))
    New New root_only
  = (New, root_only,
     Some (errorString "The absolute path to ./jmxproxybeat could not be obtained. getwd: no such file or directory")).
Proof. vm_compute. done. Qed.

Example InitPaths_file_in_the_way :
  let fs : FS := <[["opt"] := RegularFile]> root_only in
  InitPaths (no_flags "/opt/app/beat" (inl "/")) New New fs
  = ({| Home := "/opt/app"; Config := "/opt/app"; Data := "/opt/app/data"; Logs := "/opt/app/logs" |},
     fs,
     Some (errorString "Failed to create data path /opt/app/data: mkdir /opt: not a directory")).
Proof. vm_compute. done. Qed.

(** A directory of the superuser without write permission for others: user
    1000 is refused, the superuser is not. *)
Example InitPaths_read_only_parent :
  let fs : FS := <[["opt"] := Directory (5 * 64 + 5 * 8 + 5) 0 0]> root_only in
  (InitPaths (no_flags_user "/opt/app/beat" (inl "/")) New New fs).2
  = Some (errorString "Failed to create data path /opt/app/data: mkdir /opt/app: permission denied")
  /\ (InitPaths (no_flags "/opt/app/beat" (inl "/")) New New fs).2 = None.
Proof. vm_compute. done. Qed.

(** A directory that the process may not search hides what is below it. *)
Example InitPaths_unsearchable_parent :
  let fs : FS :=
    <[["opt"; "app"; "data"] := Directory mode_0755 1000 1000]>
      (<[["opt"; "app"] := Directory mode_0755 1000 1000]>
         (<[["opt"] := Directory (7 * 64) 0 0]> root_only)) in
  (InitPaths (no_flags_user "/opt/app/beat" (inl "/")) New New fs).2
  = Some (errorString "Failed to create data path /opt/app/data: mkdir /opt/app: permission denied").
Proof. vm_compute. done. Qed.

(** The walk goes through the tree: a [..] after a missing directory does
    not cancel it, so [MkdirAll] makes that directory. *)
Example InitPaths_dotdot_data_path :
  let fs : FS := <[["s"] := Directory mode_0755 0 0]> root_only in
  let env := {| Args0 := "/usr/bin/beat"; ArgsRest := [];
                Executable := "/usr/bin/beat"; Getwd := inl "/"; Umask := 18;
                Euid := 0; Egid := 0; Groups := [];
                homePath := Some "/opt/app"; configPath := None;
                dataPath := Some "/s/nx/.."; logsPath := None |} in
  (InitPaths env New New fs).2 = None
  /\ (InitPaths env New New fs).1.2 !! ["s"; "nx"] = Some (Directory mode_0755 0 0).
Proof. vm_compute. done. Qed.

Example Path_String_example :
  Path_String {| Home := "/h"; Config := "/c"; Data := "/d"; Logs := "/l" |}
  = "Home path: [/h] Config path: [/c] Data path: [/d] Logs path: [/l]".
Proof. reflexivity. Qed.

(** ** Facts about strings and [filepath] *)

Lemma len_zero s : (len s =? 0)%nat = true <-> s = "".
Proof. destruct s; simpl; split; intros; try done. Qed.

Lemma len_nonzero s : (len s =? 0)%nat = false <-> s <> "".
Proof. destruct s; simpl; split; intros; try done. Qed.

Lemma len_pos s : (0 <? len s)%nat = true <-> s <> "".
Proof. destruct s; simpl; split; intros; try done. Qed.

Lemma eqb_empty_false s : String.eqb s "" = false <-> s <> "".
Proof. apply String.eqb_neq. Qed.

Lemma IsAbs_nonempty s : filepath.IsAbs s = true -> s <> "".
Proof. destruct s; simpl; done. Qed.

Lemma IsAbs_append a b :
  filepath.IsAbs a = true -> filepath.IsAbs (a +:+ b) = true.
Proof. destruct a; simpl; done. Qed.

Lemma IsAbs_of_list c l :
  filepath.IsPathSeparator c = true ->
  filepath.IsAbs (string_of_list_ascii (c :: l)) = true.
Proof. simpl. done. Qed.

Lemma byte_at_0 c s : byte_at (String c s) 0 = c.
Proof. reflexivity. Qed.

(** The buffer of [Clean] only grows at its end in [copy_element]. *)
Lemma copy_element_prefix path r out :
  exists l, (filepath.copy_element path r out).2 = out ++ l.
Proof.
  funelim (filepath.copy_element path r out).
  - destruct (filepath.IsPathSeparator (byte_at path r)).
    + exists []. simpl. by rewrite app_nil_r.
    + destruct H as [l Hl]. exists (byte_at path r :: l).
      rewrite Hl. by rewrite <- app_assoc.
  - exists []. simpl. by rewrite app_nil_r.
Qed.

Lemma backtrack_ge out dotdot w : dotdot <= w -> dotdot <= filepath.backtrack out dotdot w.
Proof.
  induction w as [|w IH]; simpl; intros Hw; [lia|].
  destruct (Nat.ltb_spec dotdot (S w)); simpl; [|lia].
  destruct (negb _); [apply IH|]; lia.
Qed.

(** A rooted path keeps its leading separator through the loop of [Clean]:
    with [rooted] the mark [dotdot] stays at 1 and the buffer is never cut
    below it. *)
Lemma clean_loop_rooted path rooted r dotdot out :
  rooted = true -> 1 <= dotdot ->
  forall l, out = filepath.Separator :: l ->
  exists l', filepath.clean_loop path rooted r dotdot out = filepath.Separator :: l'.
Proof.
  funelim (filepath.clean_loop path rooted r dotdot out);
    intros Hrooted Hdd l0 Hout; eauto.
  - subst rooted. simpl.
    destruct (Nat.ltb_spec dotdot (length out)) as [Hlen|Hlen]; eauto.
    pose proof (backtrack_ge out dotdot (length out - 1)) as Hb.
    destruct (filepath.backtrack out dotdot (length out - 1)) as [|w]; [lia|].
    subst out. eapply H; eauto.
  - simpl.
    match goal with |- context [filepath.copy_element path r ?o] =>
      destruct (copy_element_prefix path r o) as [l1 Hl1];
      assert (exists l2, o = filepath.Separator :: l2) as [l2 Hl2]
    end.
    { destruct (_ || _); subst out; eauto. }
    eapply H; eauto. rewrite Hl1, Hl2. reflexivity.
Qed.

Lemma Clean_nonempty path : filepath.Clean path <> "".
Proof.
  unfold filepath.Clean.
  destruct (String.eqb_spec path "") as [->|Hne]; [done|].
  match goal with |- context [filepath.clean_loop ?a ?b ?c ?d ?e] =>
    generalize (filepath.clean_loop a b c d e) end.
  intros [|c l]; simpl; done.
Qed.

Lemma Clean_IsAbs path :
  filepath.IsAbs path = true -> filepath.IsAbs (filepath.Clean path) = true.
Proof.
  intros Habs. unfold filepath.Clean.
  destruct path as [|c path]; [done|]. simpl in Habs.
  replace (String.eqb (String c path) "") with false by (symmetry; by apply String.eqb_neq).
  rewrite byte_at_0.
  assert (Hs : filepath.IsPathSeparator c = true) by exact Habs.
  rewrite Hs.
  destruct (clean_loop_rooted (String c path) true 1 1 [filepath.Separator] eq_refl (le_n 1) [] eq_refl) as [l' ->].
  reflexivity.
Qed.

Lemma Join_cons_nonempty a rest :
  a <> "" ->
  filepath.Join (a :: rest)
  = filepath.Clean (filepath.strings_Join (a :: rest) (String filepath.Separator "")).
Proof.
  intros Ha. cbn [filepath.Join].
  apply String.eqb_neq in Ha. by rewrite Ha.
Qed.

Lemma Join_nonempty_l a b : a <> "" -> filepath.Join [a; b] <> "".
Proof. intros Ha. rewrite Join_cons_nonempty by done. apply Clean_nonempty. Qed.

Lemma Join_nonempty_r a b : b <> "" -> filepath.Join [a; b] <> "".
Proof.
  intros Hb. destruct (String.eqb_spec a "") as [->|Ha].
  - change (filepath.Join [""; b]) with (filepath.Join [b]).
    rewrite Join_cons_nonempty by done. apply Clean_nonempty.
  - by apply Join_nonempty_l.
Qed.

Lemma Join_IsAbs a b :
  filepath.IsAbs a = true -> filepath.IsAbs (filepath.Join [a; b]) = true.
Proof.
  intros Ha. rewrite Join_cons_nonempty by by apply IsAbs_nonempty.
  apply Clean_IsAbs. cbn [filepath.strings_Join]. by apply IsAbs_append.
Qed.

Lemma Dir_nonempty path : filepath.Dir path <> "".
Proof. apply Clean_nonempty. Qed.

(** [Abs] fails exactly when the path is relative and [os.Getwd] fails, and
    then hands back the empty string with the error of [os.Getwd]. *)
Lemma Abs_error env path h err :
  filepath.Abs env path = (h, Some err) ->
  h = "" /\ filepath.IsAbs path = false /\ Getwd env = inr err.
Proof.
  unfold filepath.Abs. destruct (filepath.IsAbs path); [done|].
  destruct (Getwd env); [done|]. by intros [= <- <-].
Qed.

Lemma Abs_ok_nonempty env path h :
  path <> "" -> filepath.Abs env path = (h, None) -> h <> "".
Proof.
  unfold filepath.Abs. intros Hp.
  destruct (filepath.IsAbs path).
  - intros [= <-]. apply Clean_nonempty.
  - destruct (Getwd env); [|done]. intros [= <-]. by apply Join_nonempty_r.
Qed.

Lemma Abs_ok_IsAbs env path h :
  (forall wd, Getwd env = inl wd -> filepath.IsAbs wd = true) ->
  filepath.Abs env path = (h, None) -> filepath.IsAbs h = true.
Proof.
  unfold filepath.Abs. intros Hwd.
  destruct (filepath.IsAbs path) eqn:Hp.
  - intros [= <-]. by apply Clean_IsAbs.
  - destruct (Getwd env) as [wd|] eqn:Hg; [|done]. intros [= <-].
    apply Join_IsAbs. by apply Hwd.
Qed.

(** ** Facts about [initPaths] *)

Lemma overwrite_nonempty flag cur v :
  flag = Some v -> v <> "" -> overwrite flag cur = v.
Proof. intros -> Hv. simpl. apply len_pos in Hv. by rewrite Hv. Qed.

Lemma overwrite_empty flag cur :
  flag = None \/ flag = Some "" -> overwrite flag cur = cur.
Proof. by intros [-> | ->]. Qed.

Lemma initPaths_flags_fields env cfg paths :
  initPaths_flags env cfg paths
  = {| Home := overwrite (homePath env) (Home cfg);
       Config := overwrite (configPath env) (Config cfg);
       Data := overwrite (dataPath env) (Data cfg);
       Logs := overwrite (logsPath env) (Logs cfg) |}.
Proof. reflexivity. Qed.

(** What [initPaths_defaults] leaves in the receiver, case by case. *)
Lemma initPaths_defaults_home_set env p :
  Home p <> "" ->
  initPaths_defaults env p
  = ({| Home := Home p;
        Config := if (len (Config p) =? 0)%nat then Home p else Config p;
        Data := if (len (Data p) =? 0)%nat then filepath.Join [Home p; "data"] else Data p;
        Logs := if (len (Logs p) =? 0)%nat then filepath.Join [Home p; "logs"] else Logs p |},
     None).
Proof.
  intros Hh. unfold initPaths_defaults.
  apply len_nonzero in Hh. rewrite Hh.
  destruct p as [h c d l]; fields.
  destruct (len c =? 0)%nat; fields;
    destruct (len d =? 0)%nat; fields;
    destruct (len l =? 0)%nat; reflexivity.
Qed.

Lemma initPaths_defaults_home_empty_ok env p home :
  Home p = "" ->
  filepath.Abs env (filepath.Dir (Args0 env)) = (home, None) ->
  initPaths_defaults env p
  = ({| Home := home;
        Config := if (len (Config p) =? 0)%nat then home else Config p;
        Data := if (len (Data p) =? 0)%nat then filepath.Join [home; "data"] else Data p;
        Logs := if (len (Logs p) =? 0)%nat then filepath.Join [home; "logs"] else Logs p |},
     None).
Proof.
  intros Hh Habs. unfold initPaths_defaults.
  rewrite Hh, Habs. simpl (len "" =? 0)%nat. cbv iota.
  destruct p as [h c d l]; fields.
  destruct (len c =? 0)%nat; fields;
    destruct (len d =? 0)%nat; fields;
    destruct (len l =? 0)%nat; reflexivity.
Qed.

Lemma initPaths_defaults_home_empty_error env p home err :
  Home p = "" ->
  filepath.Abs env (filepath.Dir (Args0 env)) = (home, Some err) ->
  initPaths_defaults env p = (set_Home home p, Some (Errorf_abs (Args0 env) err)).
Proof.
  intros Hh Habs. unfold initPaths_defaults.
  rewrite Hh, Habs. reflexivity.
Qed.

(** ** Facts about [os.MkdirAll] *)

Section MkdirAll_facts.

Context (env : Env) (perm : Z).

Lemma grows_refl fs : grows env perm fs fs.
Proof. intros k. by left. Qed.

Lemma grows_lookup fs fs' k fi :
  grows env perm fs fs' -> fs !! k = Some fi -> fs' !! k = Some fi.
Proof. intros H Hk. destruct (H k) as [E|[N _]]; congruence. Qed.

Lemma grows_trans fs1 fs2 fs3 :
  grows env perm fs1 fs2 -> grows env perm fs2 fs3 -> grows env perm fs1 fs3.
Proof.
  intros H12 H23 k.
  destruct (H12 k) as [E12|(N1 & m & u & g & Hp & E2)],
           (H23 k) as [E23|(N2 & m' & u' & g' & Hp' & E3)].
  - left. congruence.
  - right. split; [congruence|]. eauto 10.
  - right. split; [done|]. exists m, u, g.
    split; [by eapply grows_lookup|congruence].
  - congruence.
Qed.

(** The directories that the process makes. *)
Lemma new_directory_Directory m g :
  exists m' g', os.new_directory env perm m g = Directory m' (Euid env) g'.
Proof. unfold os.new_directory. destruct (Z.testbit m 10); eauto. Qed.

Lemma new_mode_bit10 : Z.testbit (os.new_mode env perm) 10 = false.
Proof.
  unfold os.new_mode, os.syscallMode.
  rewrite Z.land_spec, Z.lor_spec, Z.land_spec.
  by destruct (Z.testbit perm 20), (Z.testbit perm 10).
Qed.

(** A directory made below one that the process made has the same mode and
    the same group. *)
Lemma new_directory_inherit m g m' u' g' :
  os.new_directory env perm m g = Directory m' u' g' ->
  os.new_directory env perm m' g' = Directory m' u' g'.
Proof.
  unfold os.new_directory.
  destruct (Z.testbit m 10) eqn:Hb; intros [= <- <- <-].
  - rewrite Z.lor_spec. change (Z.testbit 1024 10) with true.
    by rewrite orb_true_r.
  - by rewrite new_mode_bit10.
Qed.

Lemma permitted_new_directory bit m g m' u' g' :
  (bit = 0 \/ bit = 1)%Z ->
  os.new_directory env perm m g = Directory m' u' g' ->
  os.permitted env bit m' u' g'
  = os.permitted env bit (os.new_mode env perm) (Euid env) (Egid env).
Proof.
  unfold os.new_directory, os.permitted. intros Hbit.
  destruct (Z.testbit m 10); intros [= <- <- <-]; rewrite Z.eqb_refl; [|done].
  rewrite Z.lor_spec.
  destruct Hbit as [-> | ->]; cbn [Z.add Pos.add Z.testbit Pos.testbit Z.to_N Pos.pred_N];
    by rewrite orb_false_r.
Qed.

Lemma usable_new_directory m g m' u' g' :
  usable env perm ->
  os.new_directory env perm m g = Directory m' u' g' ->
  os.may_search env m' u' g' = true /\ os.may_write env m' u' g' = true.
Proof.
  intros [Hx Hw] Hn. unfold os.may_search, os.may_write in *.
  split.
  - rewrite (permitted_new_directory 0 m g m' u' g'); auto.
  - rewrite (permitted_new_directory 1 m g m' u' g'); auto.
Qed.

Lemma Stat_Lstat fs name fi :
  os.Lstat env fs name = inl fi <-> os.Stat env fs name = inl fi.
Proof.
  unfold os.Lstat, os.Stat, os.stat.
  destruct (String.eqb name ""); [done|].
  destruct (os.start env name) as [cur|]; [|done].
  destruct (os.walk env fs cur (os.components name)) as [loc|]; [|done].
  destruct (fs !! loc) as [fi'|]; [|done].
  destruct (os.trailing_slash name && negb (os.IsDir fi')); done.
Qed.

(** The walk steps only through nodes that are there, so it comes out the
    same in a tree that has all of them. *)
Lemma walk_mono fs fs' cur comps loc :
  (forall k fi, fs !! k = Some fi -> fs' !! k = Some fi) ->
  os.walk env fs cur comps = inl loc -> os.walk env fs' cur comps = inl loc.
Proof.
  intros Hsub. revert cur. induction comps as [|c rest IH]; intros cur; simpl; [done|].
  destruct (fs !! cur) as [[m u g|]|] eqn:Hcur; try done.
  rewrite (Hsub _ _ Hcur).
  destruct (os.may_search env m u g); [|done].
  destruct (String.eqb c "."); [apply IH|].
  destruct (String.eqb c ".."); apply IH.
Qed.

Lemma walk_app fs cur a b :
  os.walk env fs cur (a ++ b)
  = match os.walk env fs cur a with
    | inl mid => os.walk env fs mid b
    | inr e => inr e
    end.
Proof.
  revert cur. induction a as [|c rest IH]; intros cur; simpl; [done|].
  destruct (fs !! cur) as [[m u g|]|]; try done.
  destruct (os.may_search env m u g); [|done].
  destruct (String.eqb c "."); [apply IH|].
  destruct (String.eqb c ".."); apply IH.
Qed.

Lemma app_singleton_ne {A} (l : list A) (x : A) : l ++ [x] <> l.
Proof.
  intros H. apply (f_equal length) in H. rewrite length_app in H. simpl in H. lia.
Qed.

Lemma last_removelast {A} (l : list A) (x : A) :
  last l = Some x -> l = removelast l ++ [x].
Proof.
  intros H. destruct (decide (l = [])) as [->|Hne]; [done|].
  rewrite (app_removelast_last x Hne) at 1.
  f_equal. f_equal. revert H. clear.
  induction l as [|a [|b l] IH]; simpl; intros H; [done| |by apply IH].
  by injection H.
Qed.

(** [Mkdir] either fails and leaves the tree alone, or adds one directory
    below a directory that the process may search and write. *)
Lemma Mkdir_error name fs fs' err :
  os.Mkdir env name perm fs = (fs', Some err) -> fs' = fs.
Proof.
  unfold os.Mkdir.
  repeat (match goal with
          | |- context [if ?b then _ else _] => destruct b
          | |- context [match ?x with _ => _ end] => destruct x
          end; try by intros [= <-]).
Qed.

Lemma Mkdir_ok name fs fs' :
  os.Mkdir env name perm fs = (fs', None) ->
  exists cur parent c m u g,
    String.eqb name "" = false
    /\ os.start env name = Some cur
    /\ os.components name = removelast (os.components name) ++ [c]
    /\ os.walk env fs cur (removelast (os.components name)) = inl parent
    /\ fs !! parent = Some (Directory m u g)
    /\ os.may_search env m u g = true /\ os.may_write env m u g = true
    /\ String.eqb c "." = false /\ String.eqb c ".." = false
    /\ fs !! (parent ++ [c]) = None
    /\ fs' = <[parent ++ [c] := os.new_directory env perm m g]> fs.
Proof.
  unfold os.Mkdir.
  destruct (String.eqb name "") eqn:Hn; [done|].
  destruct (os.start env name) as [cur|] eqn:Hs; [|done].
  destruct (last (os.components name)) as [c|] eqn:Hl; [|done].
  destruct (os.walk env fs cur (removelast (os.components name))) as [parent|] eqn:Hw; [|done].
  destruct (fs !! parent) as [[m u g|]|] eqn:Hp; try done.
  destruct (os.may_search env m u g) eqn:Hx; simpl; [|done].
  destruct (String.eqb c ".") eqn:Hd; [done|].
  destruct (String.eqb c "..") eqn:Hdd; [done|]. simpl.
  destruct (fs !! (parent ++ [c])) eqn:Hc; [done|].
  destruct (os.may_write env m u g) eqn:Hwr; [|done].
  intros [= <-]. exists cur, parent, c, m, u, g.
  repeat split; try done. by apply last_removelast.
Qed.

Lemma Mkdir_grows name fs fs' e :
  os.Mkdir env name perm fs = (fs', e) -> grows env perm fs fs'.
Proof.
  destruct e as [err|]; intros H.
  - apply Mkdir_error in H as ->. apply grows_refl.
  - apply Mkdir_ok in H
      as (cur & parent & c & m & u & g & _ & _ & _ & _ & Hp & _ & _ & _ & _ & Hk & ->).
    intros k'. destruct (decide (parent ++ [c] = k')) as [<-|Hne].
    + right. split; [done|]. exists m, u, g.
      rewrite removelast_last, lookup_insert_ne by apply app_singleton_ne.
      split; [done|]. by rewrite lookup_insert_eq.
    + left. by rewrite lookup_insert_ne.
Qed.

Lemma mkdir_checked_grows path fs fs' e :
  os.mkdir_checked env path perm fs = (fs', e) -> grows env perm fs fs'.
Proof.
  unfold os.mkdir_checked.
  destruct (os.Mkdir env path perm fs) as [fs1 [err|]] eqn:Hm.
  - apply Mkdir_grows in Hm.
    destruct (os.Lstat env fs1 path) as [fi|]; [destruct (os.IsDir fi)|];
      by intros [= <- <-].
  - intros [= <- <-]. by apply Mkdir_grows in Hm.
Qed.

(** After a successful [Mkdir] the name is a directory. *)
Lemma Mkdir_ok_Stat name fs fs' :
  os.Mkdir env name perm fs = (fs', None) ->
  exists m u g, os.Stat env fs' name = inl (Directory m u g).
Proof.
  intros H. pose proof (Mkdir_grows _ _ _ _ H) as Hg.
  apply Mkdir_ok in H
    as (cur & parent & c & m & u & g & Hn & Hs & Hc & Hw & Hp & Hx & _ & Hd & Hdd & _ & ->).
  destruct (new_directory_Directory m g) as (m' & g' & Hnew).
  exists m', (Euid env), g'.
  unfold os.Stat, os.stat. rewrite Hn, Hs, Hc, walk_app.
  rewrite (walk_mono fs _ cur _ parent (fun k fi => grows_lookup _ _ k fi Hg) Hw).
  simpl. rewrite lookup_insert_ne by apply app_singleton_ne.
  rewrite Hp, Hx, Hd, Hdd, lookup_insert_eq, Hnew. simpl.
  by rewrite andb_false_r.
Qed.

Lemma mkdir_checked_ok path fs fs' :
  os.mkdir_checked env path perm fs = (fs', None) ->
  exists m u g, os.Stat env fs' path = inl (Directory m u g).
Proof.
  unfold os.mkdir_checked.
  destruct (os.Mkdir env path perm fs) as [fs1 [err|]] eqn:Hm.
  - destruct (os.Lstat env fs1 path) as [[m u g|]|] eqn:Hl; simpl; try done.
    intros [= <-]. exists m, u, g. by apply Stat_Lstat.
  - intros [= <-]. by apply Mkdir_ok_Stat in Hm.
Qed.

Lemma parents_exist_insert fs parent c d m u g :
  parents_exist fs -> fs !! parent = Some (Directory m u g) ->
  fs !! (parent ++ [c]) = None ->
  parents_exist (<[parent ++ [c] := d]> fs).
Proof.
  intros Hfs Hp Hc k' fi Hk'.
  destruct (decide (parent ++ [c] = k')) as [<-|Hne].
  - rewrite removelast_last, lookup_insert_ne by apply app_singleton_ne. eauto.
  - rewrite lookup_insert_ne in Hk' by done.
    destruct (Hfs k' fi Hk') as (m' & u' & g' & Hr).
    rewrite lookup_insert_ne by congruence. eauto.
Qed.

Lemma Mkdir_parents_exist name fs fs' e :
  os.Mkdir env name perm fs = (fs', e) -> parents_exist fs -> parents_exist fs'.
Proof.
  destruct e as [err|]; intros H Hfs.
  - by apply Mkdir_error in H as ->.
  - apply Mkdir_ok in H
      as (cur & parent & c & m & u & g & _ & _ & _ & _ & Hp & _ & _ & _ & _ & Hk & ->).
    by eapply parents_exist_insert.
Qed.

Lemma mkdir_checked_parents_exist path fs fs' e :
  os.mkdir_checked env path perm fs = (fs', e) -> parents_exist fs -> parents_exist fs'.
Proof.
  unfold os.mkdir_checked. intros H Hfs.
  destruct (os.Mkdir env path perm fs) as [fs1 [err|]] eqn:Hm;
    apply Mkdir_parents_exist in Hm; try done.
  - destruct (os.Lstat env fs1 path) as [fi|]; [destruct (os.IsDir fi)|];
      by injection H as <- <-.
  - by injection H as <- <-.
Qed.

(** A directory that is already there: nothing to do, no error. *)
Lemma MkdirAll_existing path fs m u g :
  os.Stat env fs path = inl (Directory m u g) ->
  os.MkdirAll env path perm fs = (fs, None).
Proof. intros H. rewrite os.MkdirAll_equation_1. rewrite H. reflexivity. Qed.

(** Something else under that name: [ENOTDIR]. *)
Lemma MkdirAll_not_directory path fs :
  os.Stat env fs path = inl RegularFile ->
  os.MkdirAll env path perm fs = (fs, Some (PathError "mkdir" path ENOTDIR)).
Proof. intros H. rewrite os.MkdirAll_equation_1. rewrite H. reflexivity. Qed.

(** [MkdirAll] when there is no node under the name yet. *)
Lemma MkdirAll_missing path fs e :
  os.Stat env fs path = inr e ->
  os.MkdirAll env path perm fs
  = if lt_dec 1 (os.last_element path) then
      match os.MkdirAll env (slice path 0 (os.last_element path - 1)) perm fs with
      | (fs1, Some err) => (fs1, Some err)
      | (fs1, None) => os.mkdir_checked env path perm fs1
      end
    else os.mkdir_checked env path perm fs.
Proof.
  intros H. rewrite os.MkdirAll_equation_1. rewrite H. simpl.
  destruct (lt_dec 1 (os.last_element path)); simpl; [|done].
  by destruct (os.MkdirAll env (slice path 0 (os.last_element path - 1)) perm fs)
    as [fs1 [err|]].
Qed.

Lemma MkdirAll_grows path fs :
  grows env perm fs (os.MkdirAll env path perm fs).1.
Proof.
  funelim (os.MkdirAll env path perm fs); simpl.
  - destruct (os.IsDir dir); apply grows_refl.
  - destruct (os.mkdir_checked env path perm fs) as [fs2 e'] eqn:Hm.
    by apply mkdir_checked_grows in Hm.
  - rewrite Heq in Hind. exact Hind.
  - rewrite Heq in Hind. simpl in Hind.
    eapply grows_trans; [exact Hind|].
    destruct (os.mkdir_checked env path perm fs1) as [fs2 e'] eqn:Hm.
    by apply mkdir_checked_grows in Hm.
Qed.

Lemma MkdirAll_parents_exist path fs :
  parents_exist fs -> parents_exist (os.MkdirAll env path perm fs).1.
Proof.
  funelim (os.MkdirAll env path perm fs); simpl; intros Hfs.
  - by destruct (os.IsDir dir).
  - destruct (os.mkdir_checked env path perm fs) as [fs2 e'] eqn:Hm.
    by apply mkdir_checked_parents_exist in Hm.
  - rewrite Heq in Hind. by apply Hind.
  - rewrite Heq in Hind. simpl in Hind.
    destruct (os.mkdir_checked env path perm fs1) as [fs2 e'] eqn:Hm.
    apply mkdir_checked_parents_exist in Hm; auto.
Qed.

(** When [MkdirAll] reports success the name is a directory. *)
Lemma MkdirAll_ok path fs fs' :
  os.MkdirAll env path perm fs = (fs', None) ->
  exists m u g, os.Stat env fs' path = inl (Directory m u g).
Proof.
  funelim (os.MkdirAll env path perm fs); simpl.
  - destruct dir as [m u g|]; simpl; [|done]. intros [= <-]. eauto.
  - apply mkdir_checked_ok.
  - done.
  - apply mkdir_checked_ok.
Qed.

End MkdirAll_facts.

(** ** Path names in clean form *)

Lemma append_nil_l b : "" +:+ b = b.
Proof. reflexivity. Qed.

Lemma append_cons c a b : String c a +:+ b = String c (a +:+ b).
Proof. reflexivity. Qed.

Ltac append := rewrite ?append_cons, ?append_nil_l in *.

Lemma append_empty_r s : s +:+ "" = s.
Proof. induction s as [|c s IH]; append; [done|]. by f_equal. Qed.

Lemma append_assoc a b c : (a +:+ b) +:+ c = a +:+ (b +:+ c).
Proof. induction a as [|x a IH]; append; [done|]. by f_equal. Qed.

Lemma len_append a b : len (a +:+ b) = len a + len b.
Proof. unfold len. induction a as [|c a IH]; append; simpl; [done|]. by f_equal. Qed.

Lemma byte_at_app_l a b i : i < len a -> byte_at (a +:+ b) i = byte_at a i.
Proof. intros Hi. unfold byte_at. by rewrite <- (append_correct1 a b i Hi). Qed.

Lemma byte_at_app_r a b i : byte_at (a +:+ b) (len a + i) = byte_at b i.
Proof.
  unfold byte_at, len. rewrite Nat.add_comm. by rewrite <- (append_correct2 a b i).
Qed.

Lemma byte_at_no_slash c i :
  has_byte "/" c = false -> i < len c ->
  filepath.IsPathSeparator (byte_at c i) = false.
Proof.
  revert i. induction c as [|x c IH]; intros i H Hi; simpl in *; [lia|].
  apply orb_false_elim in H as [Hx Hc].
  destruct i as [|i]; [exact Hx|]. apply (IH i Hc). unfold len in *. lia.
Qed.

Lemma substring_app a b : substring 0 (String.length a) (a +:+ b) = a.
Proof. induction a as [|c a IH]; append; simpl; [by destruct b|]. by f_equal. Qed.

Lemma split_slash_no_slash c r h t :
  has_byte "/" c = false -> os.split_slash r = h :: t ->
  os.split_slash (c +:+ r) = (c +:+ h) :: t.
Proof.
  intros Hc Hr. induction c as [|x c IH]; append; simpl in *; [done|].
  apply orb_false_elim in Hc as [Hx Hc].
  change (filepath.IsPathSeparator x) with (Ascii.eqb x "/"). rewrite Hx.
  by rewrite (IH Hc).
Qed.

Lemma render_app a b : render (a ++ b) = render a +:+ render b.
Proof.
  induction a as [|c a IH]; simpl; [done|]. rewrite IH. append.
  f_equal. by rewrite append_assoc.
Qed.

Lemma split_slash_render cs :
  Forall plain cs -> os.split_slash (render cs) = "" :: cs.
Proof.
  induction 1 as [|c cs (Hne & Hc & _) Hcs IH]; simpl; [done|].
  by rewrite (split_slash_no_slash c (render cs) "" cs Hc IH), append_empty_r.
Qed.

Lemma components_render cs :
  Forall plain cs -> os.components (render cs) = cs.
Proof.
  intros H. unfold os.components. rewrite split_slash_render by done. simpl.
  induction H as [|c cs (Hne & _) Hcs IH]; simpl; [done|].
  apply String.eqb_neq in Hne. rewrite Hne. simpl. by rewrite IH.
Qed.

Lemma render_nonempty c cs : String.eqb (render (c :: cs)) "" = false.
Proof. reflexivity. Qed.

Lemma render_IsAbs c cs : filepath.IsAbs (render (c :: cs)) = true.
Proof. reflexivity. Qed.

Lemma len_render_pos c cs : 1 <= len (render (c :: cs)).
Proof. unfold len. simpl. lia. Qed.

Lemma plain_len c : plain c -> 1 <= len c.
Proof. intros (Hne & _). destruct c; [done|]. unfold len. simpl. lia. Qed.

(** The last element of a clean name starts behind its last separator. *)
Lemma scan_element_no_slash a c m :
  has_byte "/" c = false -> m <= len c ->
  os.scan_element (a +:+ c) (len a + m) = os.scan_element (a +:+ c) (len a).
Proof.
  intros Hc. induction m as [|m IH]; intros Hm; [by rewrite Nat.add_0_r|].
  rewrite Nat.add_succ_r. simpl.
  rewrite byte_at_app_r, byte_at_no_slash by (done || lia). simpl.
  apply IH. lia.
Qed.

Lemma last_element_render cs c :
  plain c ->
  os.last_element (render (cs ++ [c])) = len (render cs) + 1.
Proof.
  intros Hp. pose proof (plain_len c Hp) as Hlen. destruct Hp as (Hne & Hc & _).
  unfold os.last_element.
  assert (E : render (cs ++ [c]) = (render cs +:+ "/") +:+ c).
  { rewrite render_app. simpl. by rewrite append_empty_r, append_assoc. }
  rewrite E.
  assert (Hl : len ((render cs +:+ "/") +:+ c) = len (render cs +:+ "/") + len c)
    by apply len_append.
  assert (Hl' : len (render cs +:+ "/") = len (render cs) + 1).
  { rewrite len_append. reflexivity. }
  assert (Hskip : os.skip_trailing ((render cs +:+ "/") +:+ c)
                    (len ((render cs +:+ "/") +:+ c))
                  = len (render cs +:+ "/") + len c).
  { rewrite Hl. destruct (len c) as [|m] eqn:Em; [lia|].
    rewrite Nat.add_succ_r. simpl.
    rewrite byte_at_app_r, byte_at_no_slash by (done || lia). done. }
  rewrite Hskip, scan_element_no_slash by (done || lia).
  rewrite Hl', Nat.add_1_r. simpl.
  assert (Hb : byte_at ((render cs +:+ "/") +:+ c) (len (render cs)) = "/"%char).
  { rewrite byte_at_app_l by lia.
    pose proof (byte_at_app_r (render cs) "/" 0) as H0.
    rewrite Nat.add_0_r in H0. exact H0. }
  by rewrite Hb.
Qed.

Lemma slice_render cs c :
  slice (render (cs ++ [c])) 0 (len (render cs)) = render cs.
Proof.
  unfold slice, len. rewrite Nat.sub_0_r, render_app. apply substring_app.
Qed.

Lemma trailing_slash_render cs c :
  plain c -> os.trailing_slash (render (cs ++ [c])) = false.
Proof.
  intros Hp. pose proof (plain_len c Hp) as Hlen. destruct Hp as (Hne & Hc & _).
  unfold os.trailing_slash. apply andb_false_intro2.
  assert (E : render (cs ++ [c]) = (render cs +:+ "/") +:+ c).
  { rewrite render_app. simpl. by rewrite append_empty_r, append_assoc. }
  rewrite E, len_append.
  replace (len (render cs +:+ "/") + len c - 1)
    with (len (render cs +:+ "/") + (len c - 1)) by lia.
  rewrite byte_at_app_r. apply byte_at_no_slash; [done|lia].
Qed.

(** ** [MkdirAll] on a clean absolute name *)

Section MkdirAll_creates.

Context (env : Env) (perm : Z).

Lemma plain_eqb c :
  plain c -> String.eqb c "." = false /\ String.eqb c ".." = false.
Proof. intros (_ & _ & H1 & H2). split; by apply String.eqb_neq. Qed.

(** Through plain names the walk only goes down. *)
Lemma walk_plain_loc fs cur cs loc :
  Forall plain cs -> os.walk env fs cur cs = inl loc -> loc = cur ++ cs.
Proof.
  intros H. revert cur. induction H as [|c cs Hc Hcs IH]; intros cur; simpl.
  - intros [= <-]. by rewrite app_nil_r.
  - destruct (plain_eqb c Hc) as [-> ->].
    destruct (fs !! cur) as [[m u g|]|]; try done.
    destruct (os.may_search env m u g); [|done].
    intros Hw. rewrite (IH _ Hw). by rewrite <- app_assoc.
Qed.

Lemma walk_plain fs cur cs :
  Forall plain cs ->
  (forall i, i < length cs -> searchable_dir env fs (cur ++ take i cs)) ->
  os.walk env fs cur cs = inl (cur ++ cs).
Proof.
  intros H. revert cur. induction H as [|c cs Hc Hcs IH]; intros cur Hdirs; simpl.
  - by rewrite app_nil_r.
  - destruct (plain_eqb c Hc) as [-> ->].
    destruct (Hdirs 0 ltac:(simpl; lia)) as (m & u & g & Hcur & Hx).
    simpl in Hcur. rewrite app_nil_r in Hcur. rewrite Hcur, Hx.
    rewrite IH; [by rewrite <- app_assoc|].
    intros i Hi. specialize (Hdirs (S i) ltac:(simpl; lia)).
    simpl in Hdirs. by rewrite <- app_assoc.
Qed.

Lemma Stat_render_missing fs c cs :
  Forall plain (c :: cs) -> fs !! (c :: cs) = None ->
  exists e, os.Stat env fs (render (c :: cs)) = inr e.
Proof.
  intros Hp Hk. unfold os.Stat, os.stat.
  rewrite render_nonempty. unfold os.start. rewrite render_IsAbs.
  rewrite components_render by done.
  destruct (os.walk env fs [] (c :: cs)) as [loc|e] eqn:Hw; [|eauto].
  apply walk_plain_loc in Hw; [|done]. subst loc. simpl. rewrite Hk. eauto.
Qed.

Lemma Stat_render_directory fs c cs m u g :
  Forall plain (c :: cs) ->
  (forall i, i < length (c :: cs) -> searchable_dir env fs (take i (c :: cs))) ->
  fs !! (c :: cs) = Some (Directory m u g) ->
  os.Stat env fs (render (c :: cs)) = inl (Directory m u g).
Proof.
  intros Hp Hdirs Hk. unfold os.Stat, os.stat.
  rewrite render_nonempty. unfold os.start. rewrite render_IsAbs.
  rewrite components_render by done.
  rewrite (walk_plain fs [] (c :: cs) Hp Hdirs). simpl. rewrite Hk.
  by rewrite andb_false_r.
Qed.

Lemma take_ne {A} (l : list A) i j :
  i <= length l -> j <= length l -> i <> j -> take i l <> take j l.
Proof.
  intros Hi Hj Hne E. apply (f_equal length) in E.
  rewrite !length_take in E. lia.
Qed.

(** One [Mkdir] below a directory that is there. *)
Lemma Mkdir_render fs cs c m u g :
  Forall plain (cs ++ [c]) ->
  (forall i, i < length cs -> searchable_dir env fs (take i cs)) ->
  fs !! cs = Some (Directory m u g) ->
  os.may_search env m u g = true -> os.may_write env m u g = true ->
  fs !! (cs ++ [c]) = None ->
  os.Mkdir env (render (cs ++ [c])) perm fs
  = (<[cs ++ [c] := os.new_directory env perm m g]> fs, None).
Proof.
  intros Hp Hdirs Hcs Hx Hw Hk.
  apply Forall_app in Hp as Hp'. destruct Hp' as [Hpcs Hpc].
  apply Forall_inv in Hpc.
  unfold os.Mkdir.
  assert (Hne : String.eqb (render (cs ++ [c])) "" = false) by (by destruct cs).
  assert (Habs : filepath.IsAbs (render (cs ++ [c])) = true) by (by destruct cs).
  rewrite Hne. unfold os.start. rewrite Habs.
  rewrite components_render by done.
  rewrite removelast_last, last_snoc.
  rewrite (walk_plain fs [] cs Hpcs Hdirs). simpl.
  rewrite Hcs, Hx. simpl.
  destruct (plain_eqb c Hpc) as [-> ->]. simpl.
  by rewrite Hk, Hw.
Qed.

(** [MkdirAll] creates what is missing.  The components [cs] are those of
    the name; the first [k] of them are there, as directories that the
    process may search, the last of these it may also write, and nothing is
    below.  Then every missing directory is made, each with the attributes
    that [mkdir(2)] gives below the directory at [k], and nothing else
    changes. *)
Lemma MkdirAll_creates cs :
  Forall plain cs ->
  forall fs k m u g,
    k < length cs ->
    (forall i, i < k -> searchable_dir env fs (take i cs)) ->
    fs !! take k cs = Some (Directory m u g) ->
    os.may_search env m u g = true -> os.may_write env m u g = true ->
    (forall i, k < i <= length cs -> fs !! take i cs = None) ->
    (k + 1 < length cs -> usable env perm) ->
    exists fs',
      os.MkdirAll env (render cs) perm fs = (fs', None)
      /\ (forall i, k < i <= length cs ->
            fs' !! take i cs = Some (os.new_directory env perm m g))
      /\ (forall key, (forall i, k < i <= length cs -> key <> take i cs) ->
            fs' !! key = fs !! key).
Proof.
  induction cs as [|c cs IH] using rev_ind; [simpl; intros; lia|].
  intros Hp fs k m u g Hk Hsearch Hdir Hx Hw Hnone Huse.
  rewrite length_app in *. simpl in *.
  apply Forall_app in Hp as Hp'. destruct Hp' as [Hpcs Hpc].
  apply Forall_inv in Hpc.
  assert (Hshape : exists c0 cs0, cs ++ [c] = c0 :: cs0) by (destruct cs; simpl; eauto).
  destruct Hshape as (c0 & cs0 & Hshape).
  assert (Hk' : k <= length cs) by lia.
  assert (Htake : forall i, i <= length cs -> take i (cs ++ [c]) = take i cs).
  { intros i Hi. by rewrite take_app_le. }
  assert (Hfull : take (length cs + 1) (cs ++ [c]) = cs ++ [c]).
  { rewrite take_ge; [done|]. rewrite length_app. simpl. lia. }
  assert (Hmiss : fs !! (cs ++ [c]) = None).
  { rewrite <- Hfull at 1. apply Hnone. lia. }
  rewrite Htake in Hdir by done.
  destruct (Stat_render_missing fs c0 cs0) as [e He].
  { by rewrite <- Hshape. }
  { by rewrite <- Hshape. }
  rewrite <- Hshape in He.
  rewrite (MkdirAll_missing env perm _ fs e He).
  rewrite (last_element_render cs c Hpc).
  assert (Hlast : forall fs1 : FS,
    (forall key, (forall i, k < i <= length cs -> key <> take i cs) ->
       fs1 !! key = fs !! key) ->
    (forall i, k < i <= length cs ->
       fs1 !! take i cs = Some (os.new_directory env perm m g)) ->
    (forall i, i < length cs -> searchable_dir env fs1 (take i cs)) ->
    exists fs',
      os.mkdir_checked env (render (cs ++ [c])) perm fs1 = (fs', None)
      /\ (forall i, k < i <= length cs + 1 ->
            fs' !! take i (cs ++ [c]) = Some (os.new_directory env perm m g))
      /\ (forall key, (forall i, k < i <= length cs + 1 -> key <> take i (cs ++ [c])) ->
            fs' !! key = fs !! key)).
  { intros fs1 Hold1 Hnew1 Hsearch1.
    assert (Hparent : exists m1 u1 g1,
      fs1 !! cs = Some (Directory m1 u1 g1)
      /\ os.may_search env m1 u1 g1 = true /\ os.may_write env m1 u1 g1 = true
      /\ os.new_directory env perm m1 g1 = os.new_directory env perm m g).
    { destruct (decide (k = length cs)) as [->|Hne].
      - exists m, u, g. rewrite firstn_all in Hdir.
        rewrite Hold1; [done|]. intros j Hj. lia.
      - specialize (Hnew1 (length cs) ltac:(lia)). rewrite firstn_all in Hnew1.
        destruct (new_directory_Directory env perm m g) as (m1 & g1 & Hn).
        exists m1, (Euid env), g1. rewrite Hnew1, Hn.
        destruct (usable_new_directory env perm m g _ _ _ (Huse ltac:(lia)) Hn).
        rewrite (new_directory_inherit env perm m g _ _ _ Hn). done. }
    destruct Hparent as (m1 & u1 & g1 & Hd1 & Hx1 & Hw1 & Hsame).
    unfold os.mkdir_checked.
    rewrite (Mkdir_render fs1 cs c m1 u1 g1 Hp Hsearch1 Hd1 Hx1 Hw1).
    - eexists. split; [reflexivity|]. rewrite Hsame. split.
      + intros i Hi. destruct (decide (i = length cs + 1)) as [->|Hi'].
        * by rewrite Hfull, lookup_insert_eq.
        * rewrite lookup_insert_ne.
          -- rewrite Htake by lia. apply Hnew1. lia.
          -- intros E. apply (f_equal length) in E.
             rewrite length_take, !length_app in E. simpl in E. lia.
      + intros key Hkey. rewrite lookup_insert_ne.
        * apply Hold1. intros i Hi. rewrite <- Htake by lia. apply Hkey. lia.
        * intros <-. apply (Hkey (length cs + 1) ltac:(lia)). by rewrite Hfull.
    - rewrite Hold1; [done|].
      intros j Hj E. apply (f_equal length) in E.
      rewrite length_app, length_take in E. simpl in E. lia. }
  assert (Hsearch0 : forall i, i < k -> searchable_dir env fs (take i cs)).
  { intros i Hi. rewrite <- Htake by lia. by apply Hsearch. }
  destruct (decide (cs = [])) as [->|Hcs].
  - (* one component, below the root *)
    simpl in *. destruct (lt_dec 1 1); [lia|].
    apply Hlast; [done|intros i Hi; lia|intros i Hi; lia].
  - assert (1 <= len (render cs)).
    { destruct cs as [|x cs']; [done|]. apply len_render_pos. }
    destruct (lt_dec 1 (len (render cs) + 1)); [|lia].
    replace (len (render cs) + 1 - 1) with (len (render cs)) by lia.
    rewrite slice_render.
    destruct (decide (k = length cs)) as [->|Hne].
    + (* the parent is there *)
      rewrite firstn_all in Hdir.
      assert (Hst : os.Stat env fs (render cs) = inl (Directory m u g)).
      { destruct cs as [|x cs']; [done|].
        by apply Stat_render_directory. }
      rewrite (MkdirAll_existing env perm (render cs) fs m u g Hst).
      apply Hlast; [done|intros i Hi; lia|done].
    + (* the parent is made first *)
      destruct (IH Hpcs fs k m u g) as (fs1 & Hm1 & Hnew1 & Hold1); try done; try lia.
      * intros i Hi. rewrite <- Htake by lia. apply Hnone. lia.
      * intros Hlt'. apply Huse. lia.
      * rewrite Hm1. apply Hlast; [done|done|].
        intros i Hi. destruct (decide (i < k)) as [Hik|Hik].
        -- destruct (Hsearch0 i Hik) as (m0 & u0 & g0 & Hd & Hx0).
           exists m0, u0, g0. split; [|done].
           rewrite Hold1; [done|]. intros j Hj. apply take_ne; lia.
        -- destruct (decide (i = k)) as [->|Hik'].
           ++ exists m, u, g. split; [|done].
              rewrite Hold1; [done|]. intros j Hj. apply take_ne; lia.
           ++ destruct (new_directory_Directory env perm m g) as (m1 & g1 & Hn).
              exists m1, (Euid env), g1. rewrite Hnew1 by lia. split; [by rewrite Hn|].
              by destruct (usable_new_directory env perm m g _ _ _ (Huse ltac:(lia)) Hn).
Qed.

End MkdirAll_creates.

(** ** Facts about [InitPaths] *)

Lemma initPaths_defaults_cases env p :
  (Home p <> "" /\
   initPaths_defaults env p
   = ({| Home := Home p;
         Config := if (len (Config p) =? 0)%nat then Home p else Config p;
         Data := if (len (Data p) =? 0)%nat then filepath.Join [Home p; "data"] else Data p;
         Logs := if (len (Logs p) =? 0)%nat then filepath.Join [Home p; "logs"] else Logs p |},
      None))
  \/ (exists home, Home p = "" /\
        filepath.Abs env (filepath.Dir (Args0 env)) = (home, None) /\
        initPaths_defaults env p
        = ({| Home := home;
              Config := if (len (Config p) =? 0)%nat then home else Config p;
              Data := if (len (Data p) =? 0)%nat then filepath.Join [home; "data"] else Data p;
              Logs := if (len (Logs p) =? 0)%nat then filepath.Join [home; "logs"] else Logs p |},
           None))
  \/ (exists err, Home p = "" /\
        filepath.Abs env (filepath.Dir (Args0 env)) = ("", Some err) /\
        initPaths_defaults env p = (p, Some (Errorf_abs (Args0 env) err))).
Proof.
  destruct (String.eqb_spec (Home p) "") as [Hh|Hh].
  - destruct (filepath.Abs env (filepath.Dir (Args0 env))) as [home [err|]] eqn:Habs.
    + right. right. exists err.
      destruct (Abs_error _ _ _ _ Habs) as (-> & _ & _).
      split; [done|]. split; [done|].
      rewrite (initPaths_defaults_home_empty_error env p "" err) by done.
      destruct p as [h c d l]; fields. by subst h.
    + right. left. exists home. split; [done|]. split; [done|].
      by apply initPaths_defaults_home_empty_ok.
  - left. split; [done|]. by apply initPaths_defaults_home_set.
Qed.

(** A field that is not empty after the flags is left alone by the defaults. *)
Lemma initPaths_defaults_keeps env p :
  (Home p <> "" -> Home (initPaths_defaults env p).1 = Home p)
  /\ (Config p <> "" -> Config (initPaths_defaults env p).1 = Config p)
  /\ (Data p <> "" -> Data (initPaths_defaults env p).1 = Data p)
  /\ (Logs p <> "" -> Logs (initPaths_defaults env p).1 = Logs p).
Proof.
  destruct (initPaths_defaults_cases env p)
    as [(Hh & ->) | [(home & Hh & _ & ->) | (err & Hh & _ & ->)]]; simpl;
    repeat split; intros Hne; try done;
    apply len_nonzero in Hne; by rewrite Hne.
Qed.

(** [InitPaths] in terms of [initPaths] and [os.MkdirAll]. *)
Lemma InitPaths_unfold env cfg paths fs :
  InitPaths env cfg paths fs
  = match (initPaths env cfg paths).2 with
    | Some err => ((initPaths env cfg paths).1, fs, Some err)
    | None =>
        let data := Data (initPaths env cfg paths).1 in
        ((initPaths env cfg paths).1,
         (os.MkdirAll env data mode_0755 fs).1,
         Errorf_data data <$> (os.MkdirAll env data mode_0755 fs).2)
    end.
Proof.
  unfold InitPaths. destruct (initPaths env cfg paths) as [p [err|]]; simpl; [done|].
  destruct (os.MkdirAll env (Data p) mode_0755 fs) as [fs' [err|]]; reflexivity.
Qed.

Lemma InitPaths_fields env cfg paths fs :
  (InitPaths env cfg paths fs).1.1 = (initPaths env cfg paths).1.
Proof.
  rewrite InitPaths_unfold. by destruct (initPaths env cfg paths).2.
Qed.

Lemma InitPaths_ok_initPaths env cfg paths fs :
  (InitPaths env cfg paths fs).2 = None -> (initPaths env cfg paths).2 = None.
Proof.
  rewrite InitPaths_unfold. by destruct (initPaths env cfg paths).2.
Qed.

Lemma Resolve_relative_unknown paths ft path :
  ~ known_FileType ft -> filepath.IsAbs path = false ->
  Resolve paths ft path = Panic ("Unknown file type: " +:+ ft).
Proof.
  intros Hk Hrel. unfold Resolve. rewrite Hrel.
  destruct (String.eqb_spec ft FileTypes.Home); [exfalso; apply Hk; unfold known_FileType; tauto|].
  destruct (String.eqb_spec ft FileTypes.Config); [exfalso; apply Hk; unfold known_FileType; tauto|].
  destruct (String.eqb_spec ft FileTypes.Data); [exfalso; apply Hk; unfold known_FileType; tauto|].
  destruct (String.eqb_spec ft FileTypes.Logs); [exfalso; apply Hk; unfold known_FileType; tauto|].
  reflexivity.
Qed.

Lemma Resolve_Panic_inv paths ft path msg :
  Resolve paths ft path = Panic msg ->
  filepath.IsAbs path = false /\ ~ known_FileType ft.
Proof.
  unfold Resolve. destruct (filepath.IsAbs path); [done|].
  destruct (String.eqb_spec ft FileTypes.Home); [done|].
  destruct (String.eqb_spec ft FileTypes.Config); [done|].
  destruct (String.eqb_spec ft FileTypes.Data); [done|].
  destruct (String.eqb_spec ft FileTypes.Logs); [done|].
  intros _. split; [done|]. unfold known_FileType. tauto.
Qed.

(** * The claims *)

(** ** Resolve *)

(** C1.  For every resolver and every path argument, and for each of the
    four categories: [Resolve] returns an absolute path unchanged, whatever
    the resolver holds, and returns for a relative path the [filepath.Join]
    of the resolver's field for that category with the path.  In particular
    [Resolve(Config, "beat.yml")] is the join of the config field with
    ["beat.yml"]. *)
Theorem Resolve_absolute_or_joined (paths : Path) (path : string) :
  Resolve paths FileTypes.Home path
    = Ret (if filepath.IsAbs path then path else filepath.Join [Home paths; path])
  /\ Resolve paths FileTypes.Config path
    = Ret (if filepath.IsAbs path then path else filepath.Join [Config paths; path])
  /\ Resolve paths FileTypes.Data path
    = Ret (if filepath.IsAbs path then path else filepath.Join [Data paths; path])
  /\ Resolve paths FileTypes.Logs path
    = Ret (if filepath.IsAbs path then path else filepath.Join [Logs paths; path])
  /\ Resolve paths FileTypes.Config "beat.yml"
    = Ret (filepath.Join [Config paths; "beat.yml"]).
Proof.
  unfold Resolve. destruct (filepath.IsAbs path); repeat split; reflexivity.
Qed.

(** C6, as stated, fails: with an absolute path argument a category outside
    the four tags does not make [Resolve] panic. *)
Lemma Resolve_unknown_category_absolute_path :
  ~ known_FileType "cache"
  /\ Resolve New "cache" "/var/cache/beat" = Ret "/var/cache/beat"
  /\ (forall msg, Resolve New "cache" "/var/cache/beat" <> Panic msg).
Proof.
  split; [|split].
  - unfold known_FileType. intros [H|[H|[H|H]]]; discriminate H.
  - reflexivity.
  - intros msg H. discriminate H.
Qed.

(** C6, amended.  For every category value outside the four tags and every
    relative path argument, [Resolve] panics (with the message naming the
    category) rather than returning a value. *)
Theorem Resolve_unknown_category_panics (paths : Path) (ft : FileType) (path : string) :
  ~ known_FileType ft ->
  filepath.IsAbs path = false ->
  Resolve paths ft path = Panic ("Unknown file type: " +:+ ft).
Proof. apply Resolve_relative_unknown. Qed.

Lemma Resolve_unknown_category_panics_witness :
  ~ known_FileType "cache"
  /\ filepath.IsAbs "registry" = false
  /\ Resolve New "cache" "registry" = Panic "Unknown file type: cache".
Proof.
  assert (Hk : ~ known_FileType "cache").
  { unfold known_FileType. intros [H|[H|[H|H]]]; discriminate H. }
  split; [exact Hk|]. split; [reflexivity|].
  exact (Resolve_unknown_category_panics New "cache" "registry" Hk eq_refl).
Defined.

(** C9.  An absolute path argument is returned unchanged, without a panic,
    whatever the category value is, the four tags or not; a panic of
    [Resolve] therefore always comes from a relative path argument (and an
    unknown category). *)
Theorem Resolve_absolute_before_category (paths : Path) (ft : FileType) (path : string) :
  filepath.IsAbs path = true ->
  Resolve paths ft path = Ret path
  /\ (forall paths' ft' path' msg,
        Resolve paths' ft' path' = Panic msg ->
        filepath.IsAbs path' = false /\ ~ known_FileType ft').
Proof.
  intros Habs. split.
  - unfold Resolve. by rewrite Habs.
  - intros paths' ft' path' msg. apply Resolve_Panic_inv.
Qed.

Lemma Resolve_absolute_before_category_witness :
  filepath.IsAbs "/etc/beat/beat.yml" = true
  /\ Resolve New "no such category" "/etc/beat/beat.yml" = Ret "/etc/beat/beat.yml".
Proof.
  split; [reflexivity|].
  exact (proj1 (Resolve_absolute_before_category New "no such category"
                  "/etc/beat/beat.yml" eq_refl)).
Defined.

(** ** Init: precedence and defaults *)

Lemma takes_precedence_overwrite flag base post :
  (overwrite flag base <> "" -> post = overwrite flag base) ->
  takes_precedence flag base (overwrite flag base) post.
Proof.
  intros Hpost. split.
  - intros v Hf Hv. rewrite (overwrite_nonempty flag base v Hf Hv) in *. auto.
  - intros Hf. rewrite (overwrite_empty flag base Hf) in *. auto.
Qed.

(** C3.  For each of the four fields independently: a non-empty override
    value replaces the base configuration's value, and is the value of the
    field when [initPaths] returns; with an empty (or absent) override the
    base value is kept, and a non-empty base value is the value of the field
    when [initPaths] returns. *)
Theorem flags_take_precedence (env : Env) (cfg paths : Path) :
  takes_precedence (homePath env) (Home cfg)
    (Home (initPaths_flags env cfg paths)) (Home (initPaths env cfg paths).1)
  /\ takes_precedence (configPath env) (Config cfg)
    (Config (initPaths_flags env cfg paths)) (Config (initPaths env cfg paths).1)
  /\ takes_precedence (dataPath env) (Data cfg)
    (Data (initPaths_flags env cfg paths)) (Data (initPaths env cfg paths).1)
  /\ takes_precedence (logsPath env) (Logs cfg)
    (Logs (initPaths_flags env cfg paths)) (Logs (initPaths env cfg paths).1).
Proof.
  unfold initPaths.
  destruct (initPaths_defaults_keeps env (initPaths_flags env cfg paths))
    as (Hh & Hc & Hd & Hl).
  rewrite initPaths_flags_fields in *. fields.
  split; [|split; [|split]]; apply takes_precedence_overwrite; assumption.
Qed.

Lemma flags_take_precedence_witness :
  let env := {| Args0 := "/usr/bin/beat"; ArgsRest := [];
                Executable := "/usr/bin/beat"; Getwd := inl "/"; Umask := 18;
                Euid := 1000; Egid := 1000; Groups := [];
                homePath := None; configPath := Some "";
                dataPath := Some "/var/lib/app"; logsPath := Some "/var/log/app" |} in
  let cfg := {| Home := "/opt/app"; Config := "/etc/app"; Data := "/opt/app/state"; Logs := "" |} in
  (initPaths env cfg New).1
  = {| Home := "/opt/app"; Config := "/etc/app"; Data := "/var/lib/app"; Logs := "/var/log/app" |}.
Proof.
  intros env cfg.
  destruct (flags_take_precedence env cfg New) as ((_ & Hh) & (_ & Hc) & (Hd & _) & (Hl & _)).
  destruct (Hh (or_introl eq_refl)) as [_ Hh']. specialize (Hh' ltac:(discriminate)).
  destruct (Hc (or_intror eq_refl)) as [_ Hc']. specialize (Hc' ltac:(discriminate)).
  destruct (Hd "/var/lib/app" eq_refl ltac:(discriminate)) as [_ Hd'].
  destruct (Hl "/var/log/app" eq_refl ltac:(discriminate)) as [_ Hl'].
  destruct (initPaths env cfg New).1 as [h c d l]. fields.
  rewrite Hh', Hc', Hd', Hl'. reflexivity.
Defined.

(** C4.  When [initPaths] gets past the home default: a home that is empty
    after precedence is what [filepath.Abs(filepath.Dir(os.Args[0]))]
    returned, a non-empty one is kept; and then config, data and logs, where
    empty after precedence, are that final home, [Join(home, "data")] and
    [Join(home, "logs")].  The defaults of the three are taken from the home
    field after its own default was applied. *)
Theorem defaults_derived_from_home (env : Env) (cfg paths : Path) :
  (initPaths env cfg paths).2 = None ->
  (Home (initPaths_flags env cfg paths) = "" ->
     filepath.Abs env (filepath.Dir (Args0 env)) = (Home (initPaths env cfg paths).1, None))
  /\ (Home (initPaths_flags env cfg paths) <> "" ->
     Home (initPaths env cfg paths).1 = Home (initPaths_flags env cfg paths))
  /\ (Config (initPaths_flags env cfg paths) = "" ->
     Config (initPaths env cfg paths).1 = Home (initPaths env cfg paths).1)
  /\ (Data (initPaths_flags env cfg paths) = "" ->
     Data (initPaths env cfg paths).1
     = filepath.Join [Home (initPaths env cfg paths).1; "data"])
  /\ (Logs (initPaths_flags env cfg paths) = "" ->
     Logs (initPaths env cfg paths).1
     = filepath.Join [Home (initPaths env cfg paths).1; "logs"]).
Proof.
  unfold initPaths. generalize (initPaths_flags env cfg paths). intros p.
  destruct (initPaths_defaults_cases env p)
    as [(Hh & ->) | [(home & Hh & Habs & ->) | (err & Hh & _ & ->)]];
    cbn [fst snd]; fields; intros Hok; [| |done].
  - repeat split; try done; intros ->; reflexivity.
  - repeat split; try done; intros ->; reflexivity.
Qed.

Lemma defaults_derived_from_home_witness :
  let env := no_flags "./jmxproxybeat" (inl "/home/u") in
  (initPaths env New New).2 = None
  /\ Home (initPaths env New New).1 = "/home/u"
  /\ Config (initPaths env New New).1 = Home (initPaths env New New).1
  /\ Data (initPaths env New New).1 = filepath.Join [Home (initPaths env New New).1; "data"]
  /\ Logs (initPaths env New New).1 = filepath.Join [Home (initPaths env New New).1; "logs"].
Proof.
  intros env.
  assert (Hok : (initPaths env New New).2 = None) by (vm_compute; reflexivity).
  destruct (defaults_derived_from_home env New New Hok) as (_ & _ & Hc & Hd & Hl).
  split; [exact Hok|]. split; [vm_compute; reflexivity|].
  split; [exact (Hc eq_refl)|]. split; [exact (Hd eq_refl)|exact (Hl eq_refl)].
Defined.

(** When home is still empty after base and override precedence, it is set
    from [filepath.Abs(filepath.Dir(os.Args[0]))], the directory part of the
    program name made absolute.  If that succeeds the home field is its
    result, which is not empty, and absolute when the working directory that
    the system reports is.  If it fails, [initPaths] and [InitPaths] return
    the error "The absolute path to ... could not be obtained. ..." at once:
    no other default is applied and the file system is not touched. *)
Lemma home_default_cases (env : Env) (cfg paths : Path) (fs : FS) :
  Home (initPaths_flags env cfg paths) = "" ->
  match filepath.Abs env (filepath.Dir (Args0 env)) with
  | (home, None) =>
      (initPaths env cfg paths).2 = None
      /\ Home (initPaths env cfg paths).1 = home
      /\ home <> ""
      /\ ((forall wd, Getwd env = inl wd -> filepath.IsAbs wd = true) ->
          filepath.IsAbs home = true)
  | (_, Some err) =>
      initPaths env cfg paths
      = (initPaths_flags env cfg paths, Some (Errorf_abs (Args0 env) err))
      /\ InitPaths env cfg paths fs
      = (initPaths_flags env cfg paths, fs, Some (Errorf_abs (Args0 env) err))
  end.
Proof.
  intros Hh.
  destruct (filepath.Abs env (filepath.Dir (Args0 env))) as [home [err|]] eqn:Habs.
  - assert (Hi : initPaths env cfg paths
                 = (initPaths_flags env cfg paths, Some (Errorf_abs (Args0 env) err))).
    { unfold initPaths.
      destruct (initPaths_defaults_cases env (initPaths_flags env cfg paths))
        as [(Hne & _) | [(home' & _ & Habs' & _) | (err' & _ & Habs' & ->)]];
        [done|congruence|congruence]. }
    split; [exact Hi|]. rewrite InitPaths_unfold, Hi. reflexivity.
  - unfold initPaths.
    rewrite (initPaths_defaults_home_empty_ok env _ home Hh Habs). cbn [fst snd]. fields.
    split; [done|]. split; [done|]. split.
    + eapply Abs_ok_nonempty; [apply Dir_nonempty|exact Habs].
    + intros Hwd. eapply Abs_ok_IsAbs; eauto.
Qed.

(** A program name without a separator has the directory part [.]. *)
Lemma dir_end_no_slash path k :
  has_byte "/" path = false -> k <= len path -> filepath.dir_end path k = 0.
Proof.
  intros H. induction k as [|k IH]; intros Hk; simpl; [done|].
  rewrite (byte_at_no_slash path k H) by lia. simpl. apply IH. lia.
Qed.

Lemma Dir_no_slash path : has_byte "/" path = false -> filepath.Dir path = ".".
Proof.
  intros H. unfold filepath.Dir. rewrite (dir_end_no_slash path _ H) by lia.
  unfold slice. simpl. by destruct path.
Qed.

(** C5.  The default of home follows the program name in [os.Args], not
    the program file.  When home is empty after base and override
    precedence and the program name holds no separator, as it does when a
    shell found the program along [PATH], [initPaths] succeeds and sets
    home to the working directory ([filepath.Join] of it and [.]), whatever
    file the process runs.  So home is not the directory of the executable
    unless that happens to be the working directory. *)
Theorem home_default_follows_program_name (env : Env) (cfg paths : Path) (wd : string) :
  Home (initPaths_flags env cfg paths) = "" ->
  has_byte "/" (Args0 env) = false ->
  Getwd env = inl wd ->
  (initPaths env cfg paths).2 = None
  /\ Home (initPaths env cfg paths).1 = filepath.Join [wd; "."]
  /\ (filepath.Join [wd; "."] <> filepath.Dir (Executable env) ->
      Home (initPaths env cfg paths).1 <> filepath.Dir (Executable env)).
Proof.
  intros Hh Hs Hwd.
  assert (Habs : filepath.Abs env (filepath.Dir (Args0 env))
                 = (filepath.Join [wd; "."], None)).
  { rewrite (Dir_no_slash _ Hs). unfold filepath.Abs.
    change (filepath.IsAbs ".") with false. cbv iota. by rewrite Hwd. }
  unfold initPaths.
  rewrite (initPaths_defaults_home_empty_ok env _ _ Hh Habs). cbn [fst snd]. fields.
  done.
Qed.

Lemma home_default_follows_program_name_witness :
  let env := {| Args0 := "jmxproxybeat"; ArgsRest := [];
                Executable := "/usr/bin/jmxproxybeat"; Getwd := inl "/home/u";
                Umask := 18; Euid := 1000; Egid := 1000; Groups := [];
                homePath := Some ""; configPath := Some "";
                dataPath := Some ""; logsPath := Some "" |} in
  Home (initPaths_flags env New New) = ""
  /\ has_byte "/" (Args0 env) = false
  /\ filepath.Dir (Executable env) = "/usr/bin"
  /\ (initPaths env New New).2 = None
  /\ Home (initPaths env New New).1 = "/home/u"
  /\ Home (initPaths env New New).1 <> filepath.Dir (Executable env).
Proof.
  intros env.
  destruct (home_default_follows_program_name env New New "/home/u"
              eq_refl eq_refl eq_refl) as (Hok & Hhome & Hne).
  split; [reflexivity|]. split; [reflexivity|].
  split; [vm_compute; reflexivity|]. split; [exact Hok|].
  split; [rewrite Hhome; vm_compute; reflexivity|].
  apply Hne. vm_compute. discriminate.
Defined.

(** C10.  If home is not empty after base and override precedence,
    [initPaths] returns no error, and [InitPaths] returns an error exactly
    when [os.MkdirAll] on the data path does, namely that error wrapped.  In
    general an error of [initPaths] means that home was empty after
    precedence and [os.Getwd], asked for by [filepath.Abs], failed. *)
Theorem initPaths_fails_only_for_home_default (env : Env) (cfg paths : Path) (fs : FS) :
  Home (initPaths_flags env cfg paths) <> "" ->
  (initPaths env cfg paths).2 = None
  /\ (InitPaths env cfg paths fs).2
     = Errorf_data (Data (initPaths env cfg paths).1)
         <$> (os.MkdirAll env (Data (initPaths env cfg paths).1) mode_0755 fs).2
  /\ (forall env' cfg' paths' e,
        (initPaths env' cfg' paths').2 = Some e ->
        Home (initPaths_flags env' cfg' paths') = ""
        /\ exists err, Getwd env' = inr err /\ e = Errorf_abs (Args0 env') err).
Proof.
  intros Hh.
  assert (Hok : (initPaths env cfg paths).2 = None).
  { unfold initPaths. by rewrite initPaths_defaults_home_set. }
  split; [exact Hok|]. split.
  - rewrite InitPaths_unfold, Hok. reflexivity.
  - intros env' cfg' paths' e. unfold initPaths.
    destruct (initPaths_defaults_cases env' (initPaths_flags env' cfg' paths'))
      as [(_ & ->) | [(home & _ & _ & ->) | (err & Hh' & Habs & ->)]];
      cbn [snd]; [done|done|].
    intros [= <-]. split; [done|]. exists err. split; [|done].
    by destruct (Abs_error _ _ _ _ Habs) as (_ & _ & Hg).
Qed.

Lemma initPaths_fails_only_for_home_default_witness :
  let env := no_flags "jmxproxybeat" (inr (errorString "getwd: no such file or directory")) in
  let cfg := {| Home := "/opt/app"; Config := ""; Data := ""; Logs := "" |} in
  Home (initPaths_flags env cfg New) <> ""
  /\ (initPaths env cfg New).2 = None.
Proof.
  intros env cfg.
  assert (Hh : Home (initPaths_flags env cfg New) <> "") by discriminate.
  split; [exact Hh|].
  exact (proj1 (initPaths_fails_only_for_home_default env cfg New root_only Hh)).
Defined.

(** C8.  The state that [Init] leaves does not depend on the state it
    finds: from any two prior resolver states, the same inputs give the same
    four fields and the same error, with or without the directory creation,
    and whatever an earlier call computed is gone after the next one. *)
Theorem InitPaths_ignores_prior_state (env : Env) (cfg p1 p2 : Path) (fs : FS) :
  initPaths env cfg p1 = initPaths env cfg p2
  /\ InitPaths env cfg p1 fs = InitPaths env cfg p2 fs
  /\ (forall fs1 fs2, (InitPaths env cfg p1 fs1).1.1 = (InitPaths env cfg p2 fs2).1.1)
  /\ (forall env0 cfg0 p0 fs0,
        (InitPaths env cfg (InitPaths env0 cfg0 p0 fs0).1.1 fs).1.1
        = (InitPaths env cfg New fs).1.1).
Proof.
  assert (H : forall p q, initPaths env cfg p = initPaths env cfg q).
  { intros p q. unfold initPaths. by rewrite !initPaths_flags_fields. }
  assert (H' : forall p q fs', InitPaths env cfg p fs' = InitPaths env cfg q fs').
  { intros p q fs'. rewrite !InitPaths_unfold. by rewrite (H p q). }
  split; [apply H|]. split; [apply H'|]. split.
  - intros fs1 fs2. rewrite !InitPaths_fields. by rewrite (H p1 p2).
  - intros env0 cfg0 p0 fs0. by rewrite (H' _ New).
Qed.

(** ** Init: the invariant of the fields *)

(** C2, as stated, fails: a relative path in the base configuration is
    stored as it is, and [InitPaths] succeeds. *)
Lemma InitPaths_keeps_relative_config :
  let env := no_flags "/usr/bin/jmxproxybeat" (inl "/") in
  let cfg := {| Home := "/opt/app"; Config := "conf"; Data := ""; Logs := "" |} in
  (InitPaths env cfg New root_only).2 = None
  /\ (InitPaths env cfg New root_only).1.1
     = {| Home := "/opt/app"; Config := "conf"; Data := "/opt/app/data"; Logs := "/opt/app/logs" |}
  /\ filepath.IsAbs (Config (InitPaths env cfg New root_only).1.1) = false.
Proof. vm_compute. done. Qed.

(** C2, amended.  After every successful call to [InitPaths], for every
    input configuration, all four fields are non-empty; and all four are
    absolute paths provided that each field's value after base and override
    precedence is empty or absolute and that the working directory reported
    by the system, if any, is absolute. *)
Theorem InitPaths_fields_nonempty_absolute (env : Env) (cfg paths : Path) (fs : FS) :
  (InitPaths env cfg paths fs).2 = None ->
  (Home (InitPaths env cfg paths fs).1.1 <> ""
   /\ Config (InitPaths env cfg paths fs).1.1 <> ""
   /\ Data (InitPaths env cfg paths fs).1.1 <> ""
   /\ Logs (InitPaths env cfg paths fs).1.1 <> "")
  /\ ((forall wd, Getwd env = inl wd -> filepath.IsAbs wd = true) ->
      (Home (initPaths_flags env cfg paths) = ""
       \/ filepath.IsAbs (Home (initPaths_flags env cfg paths)) = true) ->
      (Config (initPaths_flags env cfg paths) = ""
       \/ filepath.IsAbs (Config (initPaths_flags env cfg paths)) = true) ->
      (Data (initPaths_flags env cfg paths) = ""
       \/ filepath.IsAbs (Data (initPaths_flags env cfg paths)) = true) ->
      (Logs (initPaths_flags env cfg paths) = ""
       \/ filepath.IsAbs (Logs (initPaths_flags env cfg paths)) = true) ->
      filepath.IsAbs (Home (InitPaths env cfg paths fs).1.1) = true
      /\ filepath.IsAbs (Config (InitPaths env cfg paths fs).1.1) = true
      /\ filepath.IsAbs (Data (InitPaths env cfg paths fs).1.1) = true
      /\ filepath.IsAbs (Logs (InitPaths env cfg paths fs).1.1) = true).
Proof.
  intros Hok. apply InitPaths_ok_initPaths in Hok.
  rewrite InitPaths_fields. revert Hok. unfold initPaths.
  generalize (initPaths_flags env cfg paths). intros p.
  assert (Hfill : forall (v d : string),
             d <> "" -> (if (len v =? 0)%nat then d else v) <> "").
  { intros v d Hd. destruct (len v =? 0)%nat eqn:E; [done|]. by apply len_nonzero. }
  assert (Hfill' : forall (v d : string),
             filepath.IsAbs d = true -> v = "" \/ filepath.IsAbs v = true ->
             filepath.IsAbs (if (len v =? 0)%nat then d else v) = true).
  { intros v d Hd [->|Hv]; [done|].
    apply IsAbs_nonempty in Hv as Hne. apply len_nonzero in Hne. by rewrite Hne. }
  destruct (initPaths_defaults_cases env p)
    as [(Hh & ->) | [(home & Hh & Habs & ->) | (err & Hh & _ & ->)]];
    cbn [fst snd]; fields; intros Hok; [| |done].
  - split.
    + split; [done|]. split; [by apply Hfill|].
      split; apply Hfill; by apply Join_nonempty_r.
    + intros _ [He|Ha] Hc Hd Hl; [done|].
      split; [done|]. split; [by apply Hfill'|].
      split; apply Hfill'; try done; by apply Join_IsAbs.
  - assert (Hne : home <> "").
    { eapply Abs_ok_nonempty; [apply Dir_nonempty|exact Habs]. }
    split.
    + split; [done|]. split; [by apply Hfill|].
      split; apply Hfill; by apply Join_nonempty_r.
    + intros Hwd _ Hc Hd Hl.
      assert (Ha : filepath.IsAbs home = true) by (eapply Abs_ok_IsAbs; eauto).
      split; [done|]. split; [by apply Hfill'|].
      split; apply Hfill'; try done; by apply Join_IsAbs.
Qed.

Lemma InitPaths_fields_nonempty_absolute_witness :
  let env := {| Args0 := "./jmxproxybeat"; ArgsRest := [];
                Executable := "/home/u/jmxproxybeat"; Getwd := inl "/home/u"; Umask := 18;
                Euid := 0; Egid := 0; Groups := [];
                homePath := Some ""; configPath := Some "/etc/app";
                dataPath := Some ""; logsPath := Some "" |} in
  let p := (InitPaths env New New root_only).1.1 in
  (InitPaths env New New root_only).2 = None
  /\ p = {| Home := "/home/u"; Config := "/etc/app"; Data := "/home/u/data"; Logs := "/home/u/logs" |}
  /\ (Home p <> "" /\ Config p <> "" /\ Data p <> "" /\ Logs p <> "")
  /\ (filepath.IsAbs (Home p) = true /\ filepath.IsAbs (Config p) = true
      /\ filepath.IsAbs (Data p) = true /\ filepath.IsAbs (Logs p) = true).
Proof.
  intros env p.
  assert (Hok : (InitPaths env New New root_only).2 = None) by (vm_compute; reflexivity).
  destruct (InitPaths_fields_nonempty_absolute env New New root_only Hok) as [Hne Habs].
  split; [exact Hok|]. split; [vm_compute; reflexivity|]. split; [exact Hne|].
  apply Habs.
  - intros wd [= <-]. reflexivity.
  - left. reflexivity.
  - right. reflexivity.
  - left. reflexivity.
  - left. reflexivity.
Defined.

(** ** Init: the data directory *)

(** The mode of the directories that [InitPaths] makes. *)
Lemma new_mode_0755 env :
  os.new_mode env mode_0755 = Z.land mode_0755 (Z.lnot (Umask env)).
Proof.
  unfold os.new_mode. change (os.syscallMode mode_0755) with mode_0755.
  apply Z.bits_inj'. intros n Hn.
  rewrite !Z.land_spec, !Z.lnot_spec, Z.land_spec by lia.
  destruct (Z.testbit mode_0755 n) eqn:E; [|done]. simpl.
  assert (H511 : Z.testbit 511 n = true).
  { assert (Hl : Z.land mode_0755 511 = mode_0755) by reflexivity.
    rewrite <- Hl in E. rewrite Z.land_spec in E.
    by apply andb_prop in E as [_ ?]. }
  by rewrite H511, andb_true_r.
Qed.

Lemma new_mode_0755_unmasked env :
  Z.land (Umask env) mode_0755 = 0%Z -> os.new_mode env mode_0755 = mode_0755.
Proof.
  intros H. rewrite new_mode_0755.
  apply Z.bits_inj'. intros n Hn.
  rewrite Z.land_spec, Z.lnot_spec by lia.
  destruct (Z.testbit mode_0755 n) eqn:E; [|done]. simpl.
  apply (f_equal (fun z => Z.testbit z n)) in H.
  rewrite Z.land_spec, E, andb_true_r, Z.bits_0 in H. by rewrite H.
Qed.

(** The directories are not always made with mode 0755: under umask 077
    the data directory and its parents get mode 0700. *)
Lemma InitPaths_data_dir_mode_under_umask :
  let env := {| Args0 := "/opt/app/beat"; ArgsRest := [];
                Executable := "/opt/app/beat"; Getwd := inl "/";
                Umask := 7 * 8 + 7; Euid := 0; Egid := 0; Groups := [];
                homePath := Some ""; configPath := Some "";
                dataPath := Some ""; logsPath := Some "" |} in
  let r := InitPaths env New New root_only in
  Data r.1.1 = "/opt/app/data"
  /\ r.2 = None
  /\ r.1.2 !! ["opt"; "app"; "data"] = Some (Directory (7 * 64) 0 0)
  /\ r.1.2 !! ["opt"; "app"] = Some (Directory (7 * 64) 0 0)
  /\ (7 * 64 <> mode_0755)%Z.
Proof. vm_compute. repeat split; done. Qed.

(** C7.  Once [initPaths] has computed the four fields, [InitPaths] makes
    one change to the file system, [os.MkdirAll(paths.Data, 0755)]:
    - a data path that already is a directory is success and nothing changes;
    - a data path that is there but is not a directory is an error, and
      nothing changes;
    - a missing data directory is created with its missing parents: when
      the data path is a clean absolute name with components [cs], the
      first [k] of them are directories that the process may search, the
      last of these it may also write, nothing is below, and (if more than
      one directory is to be made) the process may search and write what it
      makes, then [InitPaths] succeeds, each of the missing directories is
      there afterwards and no other location has changed;
    - on success the data path is a directory afterwards;
    - whatever the outcome, nodes are only added, and each added node is a
      directory that [mkdir(2)] made for permission 0755 in the directory
      above it; if every node lay in a directory of the tree before, so it
      does afterwards;
    - the mode of such a directory is 0755 without the bits of the umask of
      the process, which is 0755 when the umask has none of these bits;
    - when [os.MkdirAll] fails, [InitPaths] returns the error
      "Failed to create data path <path>: <cause>", built from the data path
      and the error of [os.MkdirAll];
    - success or failure, the receiver holds the four computed fields. *)
Theorem InitPaths_creates_data_dir (env : Env) (cfg paths : Path) (fs : FS) (p : Path) :
  initPaths env cfg paths = (p, None) ->
  (InitPaths env cfg paths fs).1.1 = p
  /\ (InitPaths env cfg paths fs).1.2 = (os.MkdirAll env (Data p) mode_0755 fs).1
  /\ (forall m u g, os.Stat env fs (Data p) = inl (Directory m u g) ->
        InitPaths env cfg paths fs = (p, fs, None))
  /\ (os.Stat env fs (Data p) = inl RegularFile ->
        InitPaths env cfg paths fs
        = (p, fs, Some (Errorf_data (Data p) (PathError "mkdir" (Data p) ENOTDIR))))
  /\ (forall cs k m u g,
        Data p = render cs -> Forall plain cs -> k < length cs ->
        (forall i, i < k -> searchable_dir env fs (take i cs)) ->
        fs !! take k cs = Some (Directory m u g) ->
        os.may_search env m u g = true -> os.may_write env m u g = true ->
        (forall i, k < i <= length cs -> fs !! take i cs = None) ->
        (k + 1 < length cs -> usable env mode_0755) ->
        (InitPaths env cfg paths fs).2 = None
        /\ (forall i, k < i <= length cs ->
              (InitPaths env cfg paths fs).1.2 !! take i cs
              = Some (os.new_directory env mode_0755 m g))
        /\ (forall key, (forall i, k < i <= length cs -> key <> take i cs) ->
              (InitPaths env cfg paths fs).1.2 !! key = fs !! key))
  /\ ((InitPaths env cfg paths fs).2 = None ->
        exists m u g,
          os.Stat env (InitPaths env cfg paths fs).1.2 (Data p) = inl (Directory m u g))
  /\ grows env mode_0755 fs (InitPaths env cfg paths fs).1.2
  /\ (parents_exist fs -> parents_exist (InitPaths env cfg paths fs).1.2)
  /\ os.new_mode env mode_0755 = Z.land mode_0755 (Z.lnot (Umask env))
  /\ (Z.land (Umask env) mode_0755 = 0%Z -> os.new_mode env mode_0755 = mode_0755)
  /\ (forall err, (os.MkdirAll env (Data p) mode_0755 fs).2 = Some err ->
        (InitPaths env cfg paths fs).2
        = Some (errorString ("Failed to create data path " +:+ Data p +:+ ": " +:+ Error err)))
  /\ ((os.MkdirAll env (Data p) mode_0755 fs).2 = None ->
        (InitPaths env cfg paths fs).2 = None).
Proof.
  intros Hi. rewrite InitPaths_unfold, Hi. cbn [fst snd].
  split; [done|]. split; [done|].
  split; [|split; [|split; [|split; [|split; [|split; [|split; [|split; [|split]]]]]]]].
  - intros m u g Hm. by rewrite (MkdirAll_existing env mode_0755 (Data p) fs m u g Hm).
  - intros Hm. by rewrite (MkdirAll_not_directory env mode_0755 (Data p) fs Hm).
  - intros cs k m u g -> Hp Hk Hsearch Hdir Hx Hw Hnone Huse.
    destruct (MkdirAll_creates env mode_0755 cs Hp fs k m u g Hk Hsearch Hdir Hx Hw Hnone Huse)
      as (fs' & -> & Hnew & Hold).
    done.
  - destruct (os.MkdirAll env (Data p) mode_0755 fs) as [fs' [err|]] eqn:Hm; [done|].
    intros _. by apply MkdirAll_ok in Hm.
  - apply MkdirAll_grows.
  - apply MkdirAll_parents_exist.
  - apply new_mode_0755.
  - apply new_mode_0755_unmasked.
  - by intros err ->.
  - by intros ->.
Qed.

Lemma InitPaths_creates_data_dir_witness :
  let env := {| Args0 := "/usr/bin/jmxproxybeat"; ArgsRest := [];
                Executable := "/usr/bin/jmxproxybeat"; Getwd := inl "/";
                Umask := 18; Euid := 1000; Egid := 1000; Groups := [];
                homePath := Some ""; configPath := Some "";
                dataPath := Some "/var/lib/jmxproxybeat/data"; logsPath := Some "" |} in
  let fs : FS := <[["var"; "lib"] := Directory (7 * 64 + 7 * 8 + 5) 0 1000]>
                   (<[["var"] := Directory mode_0755 0 0]> root_only) in
  let p := {| Home := "/usr/bin"; Config := "/usr/bin";
              Data := "/var/lib/jmxproxybeat/data"; Logs := "/usr/bin/logs" |} in
  initPaths env New New = (p, None)
  /\ fs !! ["var"; "lib"; "jmxproxybeat"] = None
  /\ (InitPaths env New New fs).2 = None
  /\ (InitPaths env New New fs).1.2 !! ["var"; "lib"; "jmxproxybeat"]
     = Some (Directory mode_0755 1000 1000)
  /\ (InitPaths env New New fs).1.2 !! ["var"; "lib"; "jmxproxybeat"; "data"]
     = Some (Directory mode_0755 1000 1000)
  /\ (InitPaths env New New fs).1.2 !! ["var"; "lib"] = fs !! ["var"; "lib"].
Proof.
  intros env fs p.
  assert (Hi : initPaths env New New = (p, None)) by (vm_compute; reflexivity).
  destruct (InitPaths_creates_data_dir env New New fs p Hi)
    as (_ & _ & _ & _ & Hcreate & _).
  destruct (Hcreate ["var"; "lib"; "jmxproxybeat"; "data"] 2
              (7 * 64 + 7 * 8 + 5)%Z 0%Z 1000%Z) as (Hok & Hnew & Hold).
  - reflexivity.
  - repeat constructor; discriminate.
  - simpl. lia.
  - intros [|[|i]] Hlt; [| |lia];
      exists mode_0755, 0%Z, 0%Z; vm_compute; split; reflexivity.
  - vm_compute. reflexivity.
  - vm_compute. reflexivity.
  - vm_compute. reflexivity.
  - intros [|[|[|[|[|i]]]]] Hlt; simpl in Hlt; try lia; vm_compute; reflexivity.
  - intros _. vm_compute. split; reflexivity.
  - split; [exact Hi|]. split; [vm_compute; reflexivity|]. split; [exact Hok|].
    split; [exact (Hnew 3 ltac:(simpl; lia))|].
    split; [exact (Hnew 4 ltac:(simpl; lia))|].
    apply Hold. intros [|[|[|[|[|i]]]]] Hlt; simpl in Hlt; try lia; discriminate.
Defined.

(** * Further properties of the package *)

(** ** More facts about [filepath] *)

Lemma relative_buf_app out l :
  relative_buf out -> out <> [] -> relative_buf (out ++ l).
Proof. destruct out; simpl; done. Qed.

Lemma relative_buf_take n out : relative_buf out -> relative_buf (take n out).
Proof. destruct out, n; simpl; done. Qed.

Lemma length_zero_nil {A} (l : list A) : (length l =? 0)%nat = true <-> l = [].
Proof. destruct l; simpl; split; done. Qed.

(** From a byte that is not a separator, [copy_element] copies at least
    that byte. *)
Lemma copy_element_first path r out :
  r < len path -> filepath.IsPathSeparator (byte_at path r) = false ->
  exists l, (filepath.copy_element path r out).2 = out ++ byte_at path r :: l.
Proof.
  intros Hr Hs. rewrite filepath.copy_element_equation_1.
  destruct (lt_dec r (len path)); [|lia]. simpl. rewrite Hs.
  destruct (copy_element_prefix path (S r) (out ++ [byte_at path r])) as [tl ->].
  exists tl. by rewrite <- app_assoc.
Qed.

(** A path that is not rooted never gets a leading separator in the loop
    of [Clean]. *)
Lemma clean_loop_unrooted path rooted r dotdot out :
  rooted = false -> relative_buf out ->
  relative_buf (filepath.clean_loop path rooted r dotdot out).
Proof.
  funelim (filepath.clean_loop path rooted r dotdot out);
    intros Hrooted Hout; eauto.
  - subst rooted. simpl.
    destruct (dotdot <? length out)%nat.
    + apply H; [done|]. by apply relative_buf_take.
    + apply H0; [done|]. destruct out as [|c out]; simpl; done.
  - subst rooted. apply H; [done|].
    match goal with |- context [filepath.copy_element path r ?o] =>
      destruct (copy_element_first path r o Hr (filepath.element_at_Real _ _ Hk))
        as [tl ->] end.
    destruct out as [|c out]; simpl; [|done].
    by apply filepath.element_at_Real.
Qed.

(** [Clean] keeps a path absolute or relative as it was. *)
Lemma Clean_IsAbs_eq path :
  filepath.IsAbs (filepath.Clean path) = filepath.IsAbs path.
Proof.
  destruct (filepath.IsAbs path) eqn:Habs; [by apply Clean_IsAbs|].
  unfold filepath.Clean.
  destruct path as [|c path]; [done|]. simpl in Habs.
  replace (String.eqb (String c path) "") with false by (symmetry; by apply String.eqb_neq).
  rewrite byte_at_0.
  assert (Hs : filepath.IsPathSeparator c = false) by exact Habs.
  rewrite Hs.
  pose proof (clean_loop_unrooted (String c path) false 0 0 [] eq_refl I) as Hrel.
  destruct (filepath.clean_loop (String c path) false 0 0 []) as [|c' l]; [done|].
  simpl in *. exact Hrel.
Qed.

Lemma Join_pair_IsAbs a b :
  filepath.IsAbs b = false ->
  filepath.IsAbs (filepath.Join [a; b]) = filepath.IsAbs a.
Proof.
  intros Hb. destruct (String.eqb_spec a "") as [->|Ha].
  - change (filepath.Join [""; b]) with (filepath.Join [b]).
    destruct (String.eqb_spec b "") as [->|Hne]; [done|].
    rewrite Join_cons_nonempty by done. cbn [filepath.strings_Join].
    by rewrite Clean_IsAbs_eq.
  - rewrite Join_cons_nonempty by done. rewrite Clean_IsAbs_eq.
    cbn [filepath.strings_Join]. destruct a; [done|]. reflexivity.
Qed.

Lemma Join_empty_l b :
  filepath.Join [""; b] = if String.eqb b "" then "" else filepath.Clean b.
Proof.
  change (filepath.Join [""; b]) with (filepath.Join [b]).
  cbn [filepath.Join filepath.strings_Join]. by destruct (String.eqb b "").
Qed.

Lemma dir_end_rooted c path k :
  filepath.IsPathSeparator c = true -> 1 <= k ->
  1 <= filepath.dir_end (String c path) k.
Proof.
  intros Hc. induction k as [|k IH]; [lia|]. intros _. simpl.
  destruct (filepath.IsPathSeparator (byte_at (String c path) k)) eqn:E; simpl; [lia|].
  destruct k as [|k]; [|apply IH; lia].
  rewrite byte_at_0 in E. congruence.
Qed.

(** [Dir] of an absolute path is absolute, of a relative path relative. *)
Lemma Dir_IsAbs_eq path :
  filepath.IsAbs (filepath.Dir path) = filepath.IsAbs path.
Proof.
  unfold filepath.Dir. rewrite Clean_IsAbs_eq. unfold slice.
  destruct path as [|c path]; [reflexivity|].
  rewrite Nat.sub_0_r.
  destruct (filepath.IsAbs (String c path)) eqn:Habs.
  - pose proof (dir_end_rooted c path (len (String c path)) Habs) as Hk.
    destruct (filepath.dir_end (String c path) (len (String c path))) as [|k];
      [simpl in Hk; lia|].
    simpl. exact Habs.
  - destruct (filepath.dir_end (String c path) (len (String c path))) as [|k];
      [reflexivity|].
    simpl. exact Habs.
Qed.

(** ** More facts about [Resolve] and [initPaths] *)

Lemma Resolve_known paths ft d path :
  category_field paths ft d ->
  Resolve paths ft path
  = Ret (if filepath.IsAbs path then path else filepath.Join [d; path]).
Proof.
  unfold Resolve.
  intros [[-> ->]|[[-> ->]|[[-> ->]|[-> ->]]]];
    destruct (filepath.IsAbs path); reflexivity.
Qed.

Lemma category_field_known paths ft d : category_field paths ft d -> known_FileType ft.
Proof. unfold category_field, known_FileType. tauto. Qed.

(** The four fields after an [initPaths] that returned no error. *)
Lemma initPaths_ok_fields env cfg q :
  (initPaths env cfg q).2 = None ->
  exists home,
    home <> ""
    /\ (Home (initPaths_flags env cfg q) <> "" -> home = Home (initPaths_flags env cfg q))
    /\ (Home (initPaths_flags env cfg q) = "" ->
        filepath.Abs env (filepath.Dir (Args0 env)) = (home, None))
    /\ (initPaths env cfg q).1
       = {| Home := home;
            Config := if (len (Config (initPaths_flags env cfg q)) =? 0)%nat
                      then home else Config (initPaths_flags env cfg q);
            Data := if (len (Data (initPaths_flags env cfg q)) =? 0)%nat
                    then filepath.Join [home; "data"] else Data (initPaths_flags env cfg q);
            Logs := if (len (Logs (initPaths_flags env cfg q)) =? 0)%nat
                    then filepath.Join [home; "logs"] else Logs (initPaths_flags env cfg q) |}.
Proof.
  unfold initPaths. generalize (initPaths_flags env cfg q). intros p.
  destruct (initPaths_defaults_cases env p)
    as [(Hh & ->) | [(home & Hh & Habs & ->) | (err & Hh & _ & ->)]];
    cbn [fst snd]; intros Hok; [| |done].
  - exists (Home p). repeat split; done.
  - exists home. split.
    + eapply Abs_ok_nonempty; [apply Dir_nonempty|exact Habs].
    + repeat split; done.
Qed.

Lemma filled_nonempty (v d : string) :
  d <> "" -> (if (len v =? 0)%nat then d else v) <> "".
Proof. intros Hd. destruct (len v =? 0)%nat eqn:E; [done|]. by apply len_nonzero. Qed.

Lemma filled_id (v d : string) :
  v <> "" -> (if (len v =? 0)%nat then d else v) = v.
Proof. intros Hv. apply len_nonzero in Hv. by rewrite Hv. Qed.

Lemma filled_IsAbs (v d : string) :
  filepath.IsAbs d = true -> v = "" \/ filepath.IsAbs v = true ->
  filepath.IsAbs (if (len v =? 0)%nat then d else v) = true.
Proof.
  intros Hd [->|Hv]; [done|].
  apply IsAbs_nonempty in Hv as Hne. by rewrite filled_id.
Qed.

Lemma initPaths_ok_nonempty env cfg q :
  (initPaths env cfg q).2 = None ->
  Home (initPaths env cfg q).1 <> "" /\ Config (initPaths env cfg q).1 <> ""
  /\ Data (initPaths env cfg q).1 <> "" /\ Logs (initPaths env cfg q).1 <> "".
Proof.
  intros Hok. destruct (initPaths_ok_fields env cfg q Hok) as (home & Hne & _ & _ & ->).
  fields. split; [done|]. split; [by apply filled_nonempty|].
  split; apply filled_nonempty; by apply Join_nonempty_r.
Qed.

Lemma initPaths_ok_absolute env cfg q :
  (initPaths env cfg q).2 = None ->
  (forall wd, Getwd env = inl wd -> filepath.IsAbs wd = true) ->
  (Home (initPaths_flags env cfg q) = ""
   \/ filepath.IsAbs (Home (initPaths_flags env cfg q)) = true) ->
  (Config (initPaths_flags env cfg q) = ""
   \/ filepath.IsAbs (Config (initPaths_flags env cfg q)) = true) ->
  (Data (initPaths_flags env cfg q) = ""
   \/ filepath.IsAbs (Data (initPaths_flags env cfg q)) = true) ->
  (Logs (initPaths_flags env cfg q) = ""
   \/ filepath.IsAbs (Logs (initPaths_flags env cfg q)) = true) ->
  filepath.IsAbs (Home (initPaths env cfg q).1) = true
  /\ filepath.IsAbs (Config (initPaths env cfg q).1) = true
  /\ filepath.IsAbs (Data (initPaths env cfg q).1) = true
  /\ filepath.IsAbs (Logs (initPaths env cfg q).1) = true.
Proof.
  intros Hok Hwd Hh Hc Hd Hl.
  destruct (initPaths_ok_fields env cfg q Hok) as (home & Hne & Hset & Hdef & ->).
  fields.
  assert (Ha : filepath.IsAbs home = true).
  { destruct Hh as [He|Ha].
    - eapply Abs_ok_IsAbs; eauto.
    - rewrite Hset; [done|]. by apply IsAbs_nonempty. }
  split; [done|]. split; [by apply filled_IsAbs|].
  split; apply filled_IsAbs; try done; by apply Join_IsAbs.
Qed.

(** ** Resolve *)

(** X1.  For each of the four categories, the path that [Resolve] returns is
    absolute exactly when the path argument is absolute or the category's
    field of the resolver is: a relative field makes every relative path
    resolve to a relative path. *)
Theorem Resolve_absolute_iff (paths : Path) (ft : FileType) (d path : string) :
  category_field paths ft d ->
  exists s, Resolve paths ft path = Ret s
    /\ filepath.IsAbs s = filepath.IsAbs path || filepath.IsAbs d.
Proof.
  intros Hf. rewrite (Resolve_known paths ft d path Hf).
  eexists. split; [reflexivity|].
  destruct (filepath.IsAbs path) eqn:Hp; [done|].
  by rewrite Join_pair_IsAbs.
Qed.

Lemma Resolve_absolute_iff_witness :
  let paths := {| Home := "/opt/app"; Config := "conf"; Data := "/var/lib/app"; Logs := "" |} in
  category_field paths FileTypes.Config "conf"
  /\ exists s, Resolve paths FileTypes.Config "beat.yml" = Ret s
       /\ filepath.IsAbs s = false.
Proof.
  intros paths.
  assert (Hf : category_field paths FileTypes.Config "conf").
  { right. left. split; reflexivity. }
  split; [exact Hf|].
  exact (Resolve_absolute_iff paths FileTypes.Config "conf" "beat.yml" Hf).
Defined.

(** X2.  When the category's field is empty, as in a resolver that was never
    initialised, [Resolve] of a relative path returns the cleaned path
    alone, and the empty string for the empty path; the result is never an
    absolute path. *)
Theorem Resolve_empty_field (paths : Path) (ft : FileType) (path : string) :
  category_field paths ft "" ->
  filepath.IsAbs path = false ->
  Resolve paths ft path = Ret (if String.eqb path "" then "" else filepath.Clean path)
  /\ filepath.IsAbs (if String.eqb path "" then "" else filepath.Clean path) = false.
Proof.
  intros Hf Hrel. rewrite (Resolve_known paths ft "" path Hf), Hrel, Join_empty_l.
  split; [reflexivity|].
  destruct (String.eqb path ""); [done|]. by rewrite Clean_IsAbs_eq.
Qed.

Lemma Resolve_empty_field_witness :
  category_field paths.Paths FileTypes.Data ""
  /\ filepath.IsAbs "registry/../uuid" = false
  /\ paths.Resolve paths.Paths FileTypes.Data "registry/../uuid" = Ret "uuid".
Proof.
  assert (Hf : category_field paths.Paths FileTypes.Data "").
  { right. right. left. split; reflexivity. }
  split; [exact Hf|]. split; [reflexivity|].
  exact (proj1 (Resolve_empty_field paths.Paths FileTypes.Data "registry/../uuid" Hf eq_refl)).
Defined.

(** X3.  Resolving is idempotent under an absolute field: what [Resolve]
    returns for a category whose field is absolute is returned unchanged by
    [Resolve] again, for any resolver and any category value. *)
Theorem Resolve_idempotent (paths : Path) (ft : FileType) (d path : string) :
  category_field paths ft d ->
  filepath.IsAbs d = true ->
  exists s, Resolve paths ft path = Ret s
    /\ forall paths' ft', Resolve paths' ft' s = Ret s.
Proof.
  intros Hf Hd. rewrite (Resolve_known paths ft d path Hf).
  eexists. split; [reflexivity|].
  intros paths' ft'. unfold Resolve.
  destruct (filepath.IsAbs path) eqn:Hp.
  - by rewrite Hp.
  - by rewrite Join_pair_IsAbs, Hd.
Qed.

Lemma Resolve_idempotent_witness :
  let paths := {| Home := "/opt/app"; Config := "/etc/app"; Data := "/var/lib/app"; Logs := "" |} in
  category_field paths FileTypes.Config "/etc/app"
  /\ filepath.IsAbs "/etc/app" = true
  /\ exists s, Resolve paths FileTypes.Config "beat.yml" = Ret s
       /\ forall paths' ft', Resolve paths' ft' s = Ret s.
Proof.
  intros paths.
  assert (Hf : category_field paths FileTypes.Config "/etc/app").
  { right. left. split; reflexivity. }
  split; [exact Hf|]. split; [reflexivity|].
  exact (Resolve_idempotent paths FileTypes.Config "/etc/app" "beat.yml" Hf eq_refl).
Defined.

(** ** Init followed by Resolve *)

(** X4.  After a successful top-level [InitPaths], from whatever value the
    singleton had, the top-level [Resolve] returns for each of the four
    categories and every path argument a non-empty path, without a panic.
    If moreover every field is empty or absolute after base and override
    precedence and the reported working directory is absolute, the path it
    returns is absolute. *)
Theorem Resolve_after_InitPaths (env : Env) (cfg singleton : Path) (fs : FS)
    (ft : FileType) (d path : string) :
  (paths.InitPaths env cfg singleton fs).2 = None ->
  category_field (paths.InitPaths env cfg singleton fs).1.1 ft d ->
  exists s, paths.Resolve (paths.InitPaths env cfg singleton fs).1.1 ft path = Ret s
    /\ s <> ""
    /\ ((forall wd, Getwd env = inl wd -> filepath.IsAbs wd = true) ->
        (Home (initPaths_flags env cfg singleton) = ""
         \/ filepath.IsAbs (Home (initPaths_flags env cfg singleton)) = true) ->
        (Config (initPaths_flags env cfg singleton) = ""
         \/ filepath.IsAbs (Config (initPaths_flags env cfg singleton)) = true) ->
        (Data (initPaths_flags env cfg singleton) = ""
         \/ filepath.IsAbs (Data (initPaths_flags env cfg singleton)) = true) ->
        (Logs (initPaths_flags env cfg singleton) = ""
         \/ filepath.IsAbs (Logs (initPaths_flags env cfg singleton)) = true) ->
        filepath.IsAbs s = true).
Proof.
  unfold paths.InitPaths, paths.Resolve. intros Hok.
  apply InitPaths_ok_initPaths in Hok. rewrite InitPaths_fields. intros Hf.
  rewrite (Resolve_known _ ft d path Hf). eexists. split; [reflexivity|].
  assert (Hd : d <> "").
  { destruct (initPaths_ok_nonempty env cfg singleton Hok) as (Hh & Hc & Hda & Hl).
    destruct Hf as [[_ ->]|[[_ ->]|[[_ ->]|[_ ->]]]]; done. }
  split.
  - destruct (filepath.IsAbs path) eqn:Hp; [by apply IsAbs_nonempty|].
    by apply Join_nonempty_l.
  - intros Hwd Hh Hc Hda Hl.
    destruct (initPaths_ok_absolute env cfg singleton Hok Hwd Hh Hc Hda Hl)
      as (Ah & Ac & Ad & Al).
    assert (Habs : filepath.IsAbs d = true).
    { destruct Hf as [[_ ->]|[[_ ->]|[[_ ->]|[_ ->]]]]; done. }
    destruct (filepath.IsAbs path) eqn:Hp; [done|]. by apply Join_IsAbs.
Qed.

Lemma Resolve_after_InitPaths_witness :
  let env := no_flags "/usr/share/jmxproxybeat/bin/jmxproxybeat" (inl "/") in
  (paths.InitPaths env New paths.Paths root_only).2 = None
  /\ exists s,
       paths.Resolve (paths.InitPaths env New paths.Paths root_only).1.1
         FileTypes.Config "jmxproxybeat.yml" = Ret s
       /\ s <> "" /\ filepath.IsAbs s = true.
Proof.
  intros env.
  assert (Hok : (paths.InitPaths env New paths.Paths root_only).2 = None)
    by (vm_compute; reflexivity).
  assert (Hf : category_field (paths.InitPaths env New paths.Paths root_only).1.1
                 FileTypes.Config "/usr/share/jmxproxybeat/bin").
  { right. left. split; [reflexivity|]. vm_compute. reflexivity. }
  split; [exact Hok|].
  destruct (Resolve_after_InitPaths env New paths.Paths root_only FileTypes.Config
              "/usr/share/jmxproxybeat/bin" "jmxproxybeat.yml" Hok Hf)
    as (s & Hs & Hne & Habs).
  exists s. split; [exact Hs|]. split; [exact Hne|].
  apply Habs.
  - intros wd [= <-]. reflexivity.
  - left. reflexivity.
  - left. reflexivity.
  - left. reflexivity.
  - left. reflexivity.
Defined.

(** ** Init run again *)

(** X5.  [InitPaths] is idempotent: after a successful call, a second call
    with the same configuration and environment succeeds, leaves the four
    fields as they are and changes nothing in the file system. *)
Theorem InitPaths_idempotent (env : Env) (cfg q : Path) (fs : FS) :
  (InitPaths env cfg q fs).2 = None ->
  InitPaths env cfg (InitPaths env cfg q fs).1.1 (InitPaths env cfg q fs).1.2
  = ((InitPaths env cfg q fs).1.1, (InitPaths env cfg q fs).1.2, None).
Proof.
  intros Hok. pose proof (InitPaths_ok_initPaths env cfg q fs Hok) as Hi.
  assert (Hsame : forall q', initPaths env cfg q' = initPaths env cfg q).
  { intros q'. unfold initPaths. by rewrite !initPaths_flags_fields. }
  rewrite (InitPaths_unfold env cfg (InitPaths env cfg q fs).1.1), Hsame, Hi.
  cbn zeta. rewrite InitPaths_fields.
  revert Hok. rewrite (InitPaths_unfold env cfg q fs), Hi. cbn zeta. cbn [fst snd].
  destruct (os.MkdirAll env (Data (initPaths env cfg q).1) mode_0755 fs)
    as [fs' [err|]] eqn:Hm; [done|]. intros _. cbn [fst snd].
  apply MkdirAll_ok in Hm as (m & u & g & Hm).
  by rewrite (MkdirAll_existing env mode_0755 _ fs' m u g Hm).
Qed.

Lemma InitPaths_idempotent_witness :
  let env := no_flags "/usr/share/jmxproxybeat/bin/jmxproxybeat" (inl "/") in
  let r := InitPaths env New New root_only in
  r.2 = None
  /\ r.1.2 !! ["usr"; "share"; "jmxproxybeat"; "bin"; "data"]
     = Some (Directory mode_0755 0 0)
  /\ InitPaths env New r.1.1 r.1.2 = (r.1.1, r.1.2, None).
Proof.
  intros env r.
  assert (Hok : r.2 = None) by (vm_compute; reflexivity).
  split; [exact Hok|]. split; [vm_compute; reflexivity|].
  exact (InitPaths_idempotent env New New root_only Hok).
Defined.

(** X6.  The fields that [initPaths] computes are a fixed point: given back
    as the configuration, with the same flags, they come out unchanged and
    without an error, whatever the receiver held.  This covers the call in
    which the configuration is the singleton itself. *)
Theorem initPaths_fixed_point (env : Env) (cfg q q' : Path) :
  (initPaths env cfg q).2 = None ->
  initPaths env (initPaths env cfg q).1 q' = ((initPaths env cfg q).1, None).
Proof.
  intros Hok.
  destruct (initPaths_ok_nonempty env cfg q Hok) as (Hh & Hc & Hd & Hl).
  assert (Hflag : forall flag base r,
             (overwrite flag base <> "" -> r = overwrite flag base) ->
             r <> "" -> overwrite flag r = r).
  { intros flag base r Hkeep Hr. destruct flag as [v|]; [|done]. simpl in *.
    destruct (0 <? len v)%nat eqn:E; [|done].
    symmetry. apply Hkeep. by apply len_pos. }
  destruct (initPaths_defaults_keeps env (initPaths_flags env cfg q))
    as (Kh & Kc & Kd & Kl).
  change (initPaths_defaults env (initPaths_flags env cfg q))
    with (initPaths env cfg q) in Kh, Kc, Kd, Kl.
  pose proof (Hflag (homePath env) (Home cfg) _ Kh Hh) as Eh.
  pose proof (Hflag (configPath env) (Config cfg) _ Kc Hc) as Ec.
  pose proof (Hflag (dataPath env) (Data cfg) _ Kd Hd) as Ed.
  pose proof (Hflag (logsPath env) (Logs cfg) _ Kl Hl) as El.
  destruct (initPaths env cfg q).1 as [rh rc rd rl]. fields.
  unfold initPaths. rewrite initPaths_flags_fields. fields.
  rewrite Eh, Ec, Ed, El.
  rewrite initPaths_defaults_home_set by done. fields.
  by rewrite !filled_id.
Qed.

Lemma initPaths_fixed_point_witness :
  let env := {| Args0 := "./jmxproxybeat"; ArgsRest := [];
                Executable := "/home/u/jmxproxybeat"; Getwd := inl "/home/u"; Umask := 18;
                Euid := 1000; Egid := 1000; Groups := [];
                homePath := Some ""; configPath := Some "/etc/app";
                dataPath := None; logsPath := Some "" |} in
  let r := {| Home := "/home/u"; Config := "/etc/app";
              Data := "/home/u/data"; Logs := "/home/u/logs" |} in
  (initPaths env New New).2 = None
  /\ (initPaths env New New).1 = r
  /\ initPaths env r r = (r, None).
Proof.
  intros env r.
  assert (Hok : (initPaths env New New).2 = None) by (vm_compute; reflexivity).
  split; [exact Hok|]. split; [vm_compute; reflexivity|].
  exact (initPaths_fixed_point env New New r Hok).
Defined.

(** ** Init: what the result depends on *)

(** X7.  When home is not empty after base and override precedence,
    [initPaths] reads neither the program name nor the working directory:
    two environments with the same four flag values give the same fields
    and no error, from any two receiver states. *)
Theorem initPaths_home_set_ignores_process (env1 env2 : Env) (cfg q1 q2 : Path) :
  same_flags env1 env2 ->
  Home (initPaths_flags env1 cfg q1) <> "" ->
  initPaths env1 cfg q1 = initPaths env2 cfg q2
  /\ (initPaths env1 cfg q1).2 = None.
Proof.
  intros (Eh & Ec & Ed & El) Hh. unfold initPaths.
  assert (Hpre : initPaths_flags env2 cfg q2 = initPaths_flags env1 cfg q1).
  { rewrite !initPaths_flags_fields. by rewrite Eh, Ec, Ed, El. }
  rewrite Hpre, !initPaths_defaults_home_set by done. done.
Qed.

Lemma initPaths_home_set_ignores_process_witness :
  let env1 := no_flags "/usr/bin/jmxproxybeat" (inl "/") in
  let env2 := no_flags "jmxproxybeat" (inr (errorString "getwd: no such file or directory")) in
  let cfg := {| Home := "/opt/app"; Config := ""; Data := ""; Logs := "" |} in
  same_flags env1 env2
  /\ Home (initPaths_flags env1 cfg New) <> ""
  /\ initPaths env1 cfg New = initPaths env2 cfg paths.Paths.
Proof.
  intros env1 env2 cfg.
  assert (Hs : same_flags env1 env2) by (repeat split).
  assert (Hh : Home (initPaths_flags env1 cfg New) <> "") by discriminate.
  split; [exact Hs|]. split; [exact Hh|].
  exact (proj1 (initPaths_home_set_ignores_process env1 env2 cfg New paths.Paths Hs Hh)).
Defined.

(** X8.  When all four flags are set to non-empty values, the fields are
    the flag values: the configuration, the program name and the working
    directory have no influence, and [initPaths] returns no error. *)
Theorem initPaths_all_flags (env : Env) (cfg q : Path) (h c d l : string) :
  homePath env = Some h -> configPath env = Some c ->
  dataPath env = Some d -> logsPath env = Some l ->
  h <> "" -> c <> "" -> d <> "" -> l <> "" ->
  initPaths env cfg q = ({| Home := h; Config := c; Data := d; Logs := l |}, None).
Proof.
  intros Eh Ec Ed El Hh Hc Hd Hl. unfold initPaths.
  rewrite initPaths_flags_fields.
  rewrite (overwrite_nonempty _ _ h Eh Hh), (overwrite_nonempty _ _ c Ec Hc),
    (overwrite_nonempty _ _ d Ed Hd), (overwrite_nonempty _ _ l El Hl).
  rewrite initPaths_defaults_home_set by done. fields.
  by rewrite !filled_id.
Qed.

Lemma initPaths_all_flags_witness :
  let env := {| Args0 := "jmxproxybeat"; ArgsRest := []; Executable := "/usr/bin/jmxproxybeat";
                Getwd := inr (errorString "getwd: no such file or directory"); Umask := 18;
                Euid := 1000; Egid := 1000; Groups := [];
                homePath := Some "/opt/app"; configPath := Some "/etc/app";
                dataPath := Some "state"; logsPath := Some "/var/log/app" |} in
  initPaths env {| Home := "x"; Config := "y"; Data := "z"; Logs := "" |} New
  = ({| Home := "/opt/app"; Config := "/etc/app"; Data := "state"; Logs := "/var/log/app" |}, None).
Proof.
  intros env.
  apply (initPaths_all_flags env _ New "/opt/app" "/etc/app" "state" "/var/log/app");
    (reflexivity || discriminate).
Defined.

(** ** Init: the errors *)

Lemma Abs_Dir_cases env arg0 :
  (filepath.IsAbs arg0 = true
   /\ filepath.Abs env (filepath.Dir arg0) = (filepath.Clean (filepath.Dir arg0), None))
  \/ (filepath.IsAbs arg0 = false /\ exists wd, Getwd env = inl wd
      /\ filepath.Abs env (filepath.Dir arg0) = (filepath.Join [wd; filepath.Dir arg0], None))
  \/ (filepath.IsAbs arg0 = false /\ exists err, Getwd env = inr err
      /\ filepath.Abs env (filepath.Dir arg0) = ("", Some err)).
Proof.
  unfold filepath.Abs. rewrite Dir_IsAbs_eq.
  destruct (filepath.IsAbs arg0); [by left|]. right.
  destruct (Getwd env) as [wd|err]; [left|right]; eauto.
Qed.

(** X9.  [InitPaths] returns exactly two kinds of error.  It returns
    "The absolute path to <program name> could not be obtained. <cause>"
    exactly when home is empty after base and override precedence, the
    program name is a relative path and [os.Getwd] fails with that cause;
    the fields are then as precedence left them and the file system is not
    touched.  It returns "Failed to create data path <path>: <cause>"
    exactly when the fields were computed and [os.MkdirAll] on the data
    path fails with that cause. *)
Theorem InitPaths_errors (env : Env) (cfg q : Path) (fs : FS) (e : error) :
  (InitPaths env cfg q fs).2 = Some e
  <-> (Home (initPaths_flags env cfg q) = ""
       /\ filepath.IsAbs (Args0 env) = false
       /\ (exists err, Getwd env = inr err /\ e = Errorf_abs (Args0 env) err)
       /\ (InitPaths env cfg q fs).1 = (initPaths_flags env cfg q, fs))
      \/ ((initPaths env cfg q).2 = None
          /\ exists err,
               (os.MkdirAll env (Data (initPaths env cfg q).1) mode_0755 fs).2 = Some err
               /\ e = Errorf_data (Data (initPaths env cfg q).1) err).
Proof.
  rewrite InitPaths_unfold. unfold initPaths.
  destruct (initPaths_defaults_cases env (initPaths_flags env cfg q))
    as [(Hh & ->) | [(home & Hh & Habs & ->) | (err & Hh & Habs & ->)]];
    cbn [fst snd]; cbn zeta.
  - split.
    + intros He. right. split; [done|].
      destruct (os.MkdirAll _ _ _ _).2 as [err|]; [|done].
      injection He as <-. eauto.
    + intros [(He & _)|(_ & err & -> & ->)]; done.
  - split.
    + intros He. right. split; [done|].
      destruct (os.MkdirAll _ _ _ _).2 as [err|]; [|done].
      injection He as <-. eauto.
    + intros [(_ & Hrel & (err & Hg & _) & _)|(_ & err & -> & ->)]; [|done].
      destruct (Abs_Dir_cases env (Args0 env))
        as [(Ha & _)|[(_ & wd & Hg' & _)|(_ & err' & Hg' & Habs')]]; congruence.
  - split.
    + intros [= <-]. left.
      destruct (Abs_Dir_cases env (Args0 env))
        as [(_ & Habs')|[(_ & wd & _ & Habs')|(Hrel & err' & Hg' & Habs')]];
        try congruence.
      split; [done|]. split; [done|]. split; [|done].
      exists err'. split; [done|]. congruence.
    + intros [(_ & _ & (err' & Hg & ->) & _)|(? & _)]; [|done].
      destruct (Abs_error _ _ _ _ Habs) as (_ & _ & Hg'). congruence.
Qed.

(** ** String *)

Lemma bracket_split a1 a2 r1 r2 :
  has_byte "]" a1 = false -> has_byte "]" a2 = false ->
  a1 +:+ String "]" r1 = a2 +:+ String "]" r2 ->
  a1 = a2 /\ r1 = r2.
Proof.
  revert a2. induction a1 as [|c a1 IH]; intros [|c2 a2]; simpl; intros H1 H2 E.
  - by injection E.
  - injection E as <- _. by rewrite Ascii.eqb_refl in H2.
  - injection E as -> _. by rewrite Ascii.eqb_refl in H1.
  - injection E as -> E. apply orb_false_elim in H1 as [_ H1], H2 as [_ H2].
    destruct (IH a2 H1 H2 E) as [-> ->]. done.
Qed.

(** X10.  [String] determines the four paths as long as none of them
    contains a closing bracket: two such resolvers with the same textual
    representation are equal.  Without that condition it does not: the text
    of one resolver can be the text of another. *)
Theorem Path_String_injective (p q : Path) :
  bracket_free p -> bracket_free q ->
  Path_String p = Path_String q ->
  p = q.
Proof.
  intros (Ph & Pc & Pd & Pl) (Qh & Qc & Qd & Ql). unfold Path_String.
  intros E. apply (inj (String.app _)) in E.
  apply bracket_split in E as [Eh E]; [|done|done].
  apply (inj (String.app " Config path: [")) in E.
  apply bracket_split in E as [Ec E]; [|done|done].
  apply (inj (String.app " Data path: [")) in E.
  apply bracket_split in E as [Ed E]; [|done|done].
  apply (inj (String.app " Logs path: [")) in E.
  apply bracket_split in E as [El _]; [|done|done].
  destruct p, q. simpl in *. congruence.
Qed.

Lemma Path_String_injective_witness :
  let p := {| Home := "/opt/app"; Config := "/etc/app"; Data := "/var/lib/app"; Logs := "logs" |} in
  bracket_free p /\ (forall q, bracket_free q -> Path_String p = Path_String q -> p = q).
Proof.
  intros p.
  assert (Hp : bracket_free p) by (repeat split).
  split; [exact Hp|].
  intros q Hq. exact (Path_String_injective p q Hp Hq).
Defined.

(** The condition of X10 is needed: a bracket inside a path can imitate the
    text between two fields. *)
Lemma Path_String_not_injective :
  exists p q, p <> q /\ Path_String p = Path_String q.
Proof.
  exists {| Home := "a] Config path: [b"; Config := "c"; Data := "d"; Logs := "l" |},
         {| Home := "a"; Config := "b] Config path: [c"; Data := "d"; Logs := "l" |}.
  split; [discriminate|reflexivity].
Qed.

(** ** Init: which directories are created *)

Lemma substring_full s : substring 0 (String.length s) s = s.
Proof. induction s as [|c s IH]; simpl; [done|]. by rewrite IH. Qed.

Lemma substring_prefix_prefix s n m :
  n <= m -> substring 0 n (substring 0 m s) = substring 0 n s.
Proof.
  revert n m. induction s as [|c s IH]; intros [|n] [|m] Hnm; simpl; try done; try lia.
  rewrite IH by lia. done.
Qed.

Lemma length_substring_0 s m :
  m <= String.length s -> String.length (substring 0 m s) = m.
Proof.
  revert m. induction s as [|c s IH]; intros [|m] Hm; simpl in *; try done; try lia.
  rewrite IH; lia.
Qed.

Lemma byte_at_substring s m n :
  n < m -> byte_at (substring 0 m s) n = byte_at s n.
Proof.
  unfold byte_at. revert m n.
  induction s as [|c s IH]; intros [|m] [|n] Hn; simpl; try done; try lia.
  apply IH. lia.
Qed.

Lemma scan_element_separator path j i :
  os.scan_element path j = S i ->
  filepath.IsPathSeparator (byte_at path i) = true.
Proof.
  induction j as [|j IH]; simpl; [done|].
  destruct (filepath.IsPathSeparator (byte_at path j)) eqn:E; simpl; [|exact IH].
  by intros [= <-].
Qed.

(** A boundary of the parent that [MkdirAll] recurses on is a boundary of
    the path. *)
Lemma boundary_parent path n :
  1 < os.last_element path ->
  n <= len (slice path 0 (os.last_element path - 1)) ->
  boundary (slice path 0 (os.last_element path - 1)) n ->
  n <= len path /\ boundary path n
  /\ slice (slice path 0 (os.last_element path - 1)) 0 n = slice path 0 n.
Proof.
  intros Hj Hn Hb. pose proof (os.last_element_le path) as Hle.
  unfold boundary, slice, len in *. rewrite !Nat.sub_0_r in *.
  rewrite length_substring_0 in * by lia.
  assert (Hsep : filepath.IsPathSeparator (byte_at path (os.last_element path - 1)) = true).
  { apply (scan_element_separator path (os.skip_trailing path (String.length path))).
    unfold os.last_element, len in *. lia. }
  split; [lia|]. split.
  - right. destruct Hb as [->|Hb]; [done|].
    destruct (decide (n < os.last_element path - 1)) as [Hlt|Hge].
    + by rewrite byte_at_substring in Hb.
    + by assert (n = os.last_element path - 1) as -> by lia.
  - by rewrite substring_prefix_prefix.
Qed.

Section MkdirAll_names.

Context (env : Env) (perm : Z).

(** The walk comes out the same in a larger tree. *)
Lemma location_mono fs fs' name k :
  (forall k fi, fs !! k = Some fi -> fs' !! k = Some fi) ->
  location env fs name = Some k -> location env fs' name = Some k.
Proof.
  intros Hsub. unfold location.
  destruct (String.eqb name ""); [done|].
  destruct (os.start env name) as [cur|]; [|done].
  destruct (os.walk env fs cur (os.components name)) as [loc|] eqn:Hw; [|done].
  by rewrite (walk_mono env fs fs' cur _ loc Hsub Hw).
Qed.

(** The directory that [Mkdir] adds is where the walk of its name ends. *)
Lemma Mkdir_new name fs fs' e k :
  os.Mkdir env name perm fs = (fs', e) ->
  fs !! k = None -> is_Some (fs' !! k) -> location env fs' name = Some k.
Proof.
  destruct e as [err|]; intros H Hk Hk'.
  - apply Mkdir_error in H as ->. rewrite Hk in Hk'. by destruct Hk'.
  - pose proof (Mkdir_grows _ _ _ _ _ _ H) as Hg.
    apply Mkdir_ok in H
      as (cur & parent & c & m & u & g & Hn & Hs & Hc & Hw & Hp & Hx & _ & Hd & Hdd & _ & ->).
    destruct (decide (parent ++ [c] = k)) as [<-|Hne].
    + unfold location. rewrite Hn, Hs, Hc, walk_app.
      rewrite (walk_mono env fs _ cur _ parent
                 (fun k fi => grows_lookup env perm _ _ k fi Hg) Hw).
      simpl. rewrite lookup_insert_ne by apply app_singleton_ne.
      by rewrite Hp, Hx, Hd, Hdd.
    + rewrite lookup_insert_ne, Hk in Hk' by done. by destruct Hk'.
Qed.

Lemma mkdir_checked_new path fs fs' e k :
  os.mkdir_checked env path perm fs = (fs', e) ->
  fs !! k = None -> is_Some (fs' !! k) -> location env fs' path = Some k.
Proof.
  unfold os.mkdir_checked. intros H.
  destruct (os.Mkdir env path perm fs) as [fs1 [err|]] eqn:Hm.
  - assert (fs' = fs1) as ->.
    { destruct (os.Lstat env fs1 path) as [fi|]; [destruct (os.IsDir fi)|];
        by injection H as <- _. }
    by eapply Mkdir_new.
  - injection H as <- _. by eapply Mkdir_new.
Qed.

(** Every directory that [MkdirAll] adds to the tree is where the walk of a
    leading part [path[0:n]] of its argument ends, and the part ends where
    the path ends or a separator follows. *)
Lemma MkdirAll_new path fs k :
  fs !! k = None -> is_Some ((os.MkdirAll env path perm fs).1 !! k) ->
  exists n, n <= len path /\ boundary path n
    /\ location env (os.MkdirAll env path perm fs).1 (slice path 0 n) = Some k.
Proof.
  funelim (os.MkdirAll env path perm fs); simpl; intros Hk Hk'.
  - assert (is_Some (fs !! k)) as [x Hx] by (by destruct (os.IsDir dir)).
    congruence.
  - destruct (os.mkdir_checked env path perm fs) as [fs2 e'] eqn:Hm.
    exists (len path). split; [done|]. split; [by left|].
    unfold slice, len. rewrite Nat.sub_0_r, substring_full.
    by eapply mkdir_checked_new.
  - rewrite Heq in Hind. destruct (Hind k Hk Hk') as (n & Hn & Hb & Hloc).
    destruct (boundary_parent path n Hj Hn Hb) as (Hn' & Hb' & Hs).
    exists n. rewrite <- Hs. done.
  - rewrite Heq in Hind. simpl in Hind.
    destruct (os.mkdir_checked env path perm fs1) as [fs2 e'] eqn:Hm. simpl in *.
    destruct (fs1 !! k) as [x|] eqn:Hk1.
    + destruct (Hind k Hk ltac:(rewrite Hk1; eauto)) as (n & Hn & Hb & Hloc).
      destruct (boundary_parent path n Hj Hn Hb) as (Hn' & Hb' & Hs).
      exists n. rewrite <- Hs. split; [done|]. split; [done|].
      apply (location_mono fs1); [|done].
      intros k0 fi. apply grows_lookup with (env := env) (perm := perm).
      by apply mkdir_checked_grows in Hm.
    + exists (len path). split; [done|]. split; [by left|].
      unfold slice, len. rewrite Nat.sub_0_r, substring_full.
      by eapply mkdir_checked_new.
Qed.

End MkdirAll_names.

(** X11.  [InitPaths] creates no directory other than the data directory
    and its parents: every location that holds a node after the call and
    held none before is where the walk of a leading part of the data path
    ends, and the part is made of whole components (it ends where the data
    path ends or a separator follows).  The home, config and logs
    directories are not created (unless they are such a part), and nothing
    is created when [initPaths] fails. *)
Theorem InitPaths_creates_only_data_path (env : Env) (cfg q : Path) (fs : FS)
    (k : list string) :
  fs !! k = None ->
  is_Some ((InitPaths env cfg q fs).1.2 !! k) ->
  (initPaths env cfg q).2 = None
  /\ exists n, n <= len (Data (initPaths env cfg q).1)
       /\ boundary (Data (initPaths env cfg q).1) n
       /\ location env (InitPaths env cfg q fs).1.2
            (slice (Data (initPaths env cfg q).1) 0 n) = Some k.
Proof.
  rewrite InitPaths_unfold. intros Hk.
  destruct (initPaths env cfg q).2 as [err|]; cbn [fst snd]; cbn zeta.
  - intros [x Hx]. congruence.
  - intros Hk'. split; [done|]. by eapply MkdirAll_new.
Qed.

Lemma InitPaths_creates_only_data_path_witness :
  let env := no_flags "/opt/app/bin/beat" (inl "/") in
  root_only !! ["opt"; "app"] = None
  /\ is_Some ((InitPaths env New New root_only).1.2 !! ["opt"; "app"])
  /\ exists n, n <= len (Data (initPaths env New New).1)
       /\ boundary (Data (initPaths env New New).1) n
       /\ location env (InitPaths env New New root_only).1.2
            (slice (Data (initPaths env New New).1) 0 n) = Some ["opt"; "app"].
Proof.
  intros env.
  assert (Hk : root_only !! ["opt"; "app"] = None) by (vm_compute; reflexivity).
  assert (Hk' : is_Some ((InitPaths env New New root_only).1.2 !! ["opt"; "app"])).
  { vm_compute. eauto. }
  split; [exact Hk|]. split; [exact Hk'|].
  exact (proj2 (InitPaths_creates_only_data_path env New New root_only
                  ["opt"; "app"] Hk Hk')).
Defined.

(** ** Resolve: the empty result *)

(** X12.  For each of the four categories, [Resolve] returns the empty
    string only when both the path argument and the category's field are
    empty. *)
Theorem Resolve_empty_iff (paths : Path) (ft : FileType) (d path : string) :
  category_field paths ft d ->
  Resolve paths ft path = Ret "" <-> path = "" /\ d = "".
Proof.
  intros Hf. rewrite (Resolve_known paths ft d path Hf). split.
  - intros [= E]. destruct (filepath.IsAbs path) eqn:Hp.
    + subst path. done.
    + destruct (decide (d = "")) as [->|Hd].
      * split; [|done]. destruct (decide (path = "")) as [->|Hne]; [done|].
        exfalso. exact (Join_nonempty_r "" path Hne E).
      * exfalso. exact (Join_nonempty_l d path Hd E).
  - intros [-> ->]. reflexivity.
Qed.

Lemma Resolve_empty_iff_witness :
  category_field paths.Paths FileTypes.Logs ""
  /\ (Resolve paths.Paths FileTypes.Logs "" = Ret "")
  /\ (Resolve paths.Paths FileTypes.Logs "beat.log" <> Ret "").
Proof.
  assert (Hf : category_field paths.Paths FileTypes.Logs "").
  { right. right. right. split; reflexivity. }
  split; [exact Hf|]. split.
  - apply (Resolve_empty_iff paths.Paths FileTypes.Logs "" "" Hf). done.
  - intros H. apply (Resolve_empty_iff paths.Paths FileTypes.Logs "" "beat.log" Hf) in H.
    destruct H as [H _]. discriminate H.
Defined.
